(** * Obsidian citation plugin: a shallow embedding of [main.ts] and [util.ts]

  The development follows the TypeScript sources:
  - [JS]    the pieces of the JavaScript runtime the plugin relies on
            (completions, [Object.fromEntries], [String.prototype.replace]
            with a global character-class pattern);
  - [Path]  Node's POSIX [path.resolve];
  - [Util]  [util.ts]: [DISALLOWED_FILENAME_CHARACTERS_RE] and the
            [Notifier] class;
  - [Main]  [main.ts]: the [CitationPlugin] class ([resolveLibraryPath],
            [loadLibrary], [getTitleForCitekey], the reload callbacks).

  JavaScript strings are modelled as [string]; a character is an [ascii]. *)

From Stdlib Require Import Ascii String.
From stdpp Require Import base option list strings gmap fin_maps pretty.

Local Open Scope string_scope.

(* ===================================================================== *)
(** * JavaScript runtime                                                   *)
(* ===================================================================== *)

Module JS.

(** A thrown value. [TypeError] is what the runtime raises on a property
    read from [undefined]/[null]; [Error] stands for every other thrown
    value (I/O errors, parser errors, ...). *)
Inductive Exception : Type :=
| TypeError (msg : string)
| Error (msg : string).

(** The completion of an expression: it yields a value or it throws. *)
Inductive Completion (A : Type) : Type :=
| Normal (a : A)
| Throw (e : Exception).
Arguments Normal {A} a.
Arguments Throw {A} e.

Definition bind {A B : Type} (c : Completion A) (k : A -> Completion B)
  : Completion B :=
  match c with
  | Normal a => k a
  | Throw e => Throw e
  end.

(** [array.map(f)]: elements are visited left to right and the first
    exception aborts the traversal. *)
Fixpoint array_map {A B : Type} (f : A -> Completion B) (l : list A)
  : Completion (list B) :=
  match l with
  | [] => Normal []
  | x :: l' =>
      bind (f x) (fun y =>
      bind (array_map f l') (fun ys => Normal (y :: ys)))
  end.

(** [ToPropertyKey] on the value of a string-typed field: a missing field
    reads as [undefined], whose property key is the string "undefined". *)
Definition ToPropertyKey (v : option string) : string :=
  match v with
  | Some s => s
  | None => "undefined"
  end.

(** [Object.fromEntries(pairs)]: the pairs are visited in order and each
    one defines (or redefines) the property named by its key. *)
Definition defineAll {V : Type} (pairs : list (string * V))
           (obj : gmap string V) : gmap string V :=
  fold_left (fun obj kv => <[kv.1 := kv.2]> obj) pairs obj.

Definition fromEntries {V : Type} (pairs : list (string * V))
  : gmap string V :=
  defineAll pairs ∅.

(** Truthiness of a string: only the empty string is falsy. *)
Definition truthy (s : string) : bool :=
  match s with
  | EmptyString => false
  | String _ _ => true
  end.

(** [s.replace(/[...]/g, r)] for a character class given as a predicate
    and a one-character replacement: every matching character of [s] is
    replaced, all others are kept. *)
Fixpoint replace_class (cls : ascii -> bool) (r : ascii) (s : string)
  : string :=
  match s with
  | EmptyString => EmptyString
  | String c s' =>
      String (if cls c then r else c) (replace_class cls r s')
  end.

(** The characters of a string, in order. *)
Fixpoint chars (s : string) : list ascii :=
  match s with
  | EmptyString => []
  | String c s' => c :: chars s'
  end.

End JS.

(* ===================================================================== *)
(** * util.ts                                                              *)
(* ===================================================================== *)

Module Util.

(** [DISALLOWED_FILENAME_CHARACTERS_RE]: a global pattern made of one
    character class, given here as a predicate.  The class lists the
    asterisk, the double quote (character 34), the backslash (character
    92), the slash, the two angle brackets, the colon, the vertical bar and
    the question mark. *)
Definition DISALLOWED_FILENAME_CHARACTERS : list ascii :=
  ["*"; "034"; "092"; "/"; "<"; ">"; ":"; "|"; "?"]%char.

Definition DISALLOWED_FILENAME_CHARACTERS_RE (c : ascii) : bool :=
  if decide (c ∈ DISALLOWED_FILENAME_CHARACTERS) then true else false.

(** ** The host's notices

    [new Notice(message)] asks the host to display a notice.  The host
    keeps the notices that are on display and have not started to
    disappear. *)
Record NoticeExt : Type := mkNotice {
  noticeId : nat;
  noticeMessage : string
}.

#[global] Instance NoticeExt_eq_dec : EqDecision NoticeExt.
Proof. solve_decision. Defined.

Record Host : Type := mkHost {
  displayed : list NoticeExt;
  nextNoticeId : nat
}.

Definition new_Notice (message : string) (h : Host) : NoticeExt * Host :=
  let n := mkNotice (nextNoticeId h) message in
  (n, mkHost (displayed h ++ [n]) (S (nextNoticeId h))).

(** [notice.hide()], and the host starting to fade a notice out: in both
    cases the notice leaves the display. *)
Definition remove_Notice (id : nat) (h : Host) : Host :=
  mkHost (filter (fun n => noticeId n ≠ id) (displayed h)) (nextNoticeId h).

(** ** The [Notifier] class

    [mutationObserver] holds the connected observer, identified by the
    notice whose element it observes.  Every code path that disconnects
    an observer also overwrites or clears the field, so a disconnected
    observer is never retained. *)
Record Notifier : Type := mkNotifier {
  defaultMessage : string;
  currentNotice : option NoticeExt;
  mutationObserver : option nat
}.

(** [new Notifier(defaultMessage)] *)
Definition new_Notifier (defaultMessage : string) : Notifier :=
  mkNotifier defaultMessage None None.

(** A mutation record, as far as the observer's callback inspects it:
    [change.type == 'attributes'] and
    [el.hasClass(NoticeExt.DISAPPEARING_CLASS)]. *)
Record MutationRecord : Type := mkMutation {
  isAttributes : bool;
  hasDisappearingClass : bool
}.

(** [show(message?)].  The result is [Some false] for [return false] and
    [None] when the body runs to its end without a [return]. *)
Definition show (message : option string) (nt : Notifier) (h : Host)
  : option bool * Notifier * Host :=
  let message :=
    match message with
    | Some m => if JS.truthy m then m else defaultMessage nt
    | None => defaultMessage nt
    end in
  match currentNotice nt with
  | Some _ => (Some false, nt, h)
  | None =>
      let '(n, h') := new_Notice message h in
      (None, mkNotifier (defaultMessage nt) (Some n) (Some (noticeId n)), h')
  end.

(** The callback handed to [new MutationObserver(...)]. *)
Definition onMutation (changes : list MutationRecord) (nt : Notifier)
  : Notifier :=
  let isDisappearing :=
    existsb (fun change => isAttributes change && hasDisappearingClass change)
            changes in
  if isDisappearing then mkNotifier (defaultMessage nt) None None else nt.

(** [hide()] *)
Definition hide (nt : Notifier) (h : Host) : Notifier * Host :=
  let h' :=
    match currentNotice nt with
    | Some n => remove_Notice (noticeId n) h
    | None => h
    end in
  (mkNotifier (defaultMessage nt) None None, h').

(** [unload()] *)
Definition unload (nt : Notifier) (h : Host) : Notifier * Host :=
  hide nt h.

(** ** A notifier in its host

    What can happen to one [Notifier] over its life: the plugin calls its
    methods, and the host acts on a notice: it starts to fade the notice
    out (the element gets the disappearing class), it changes the class
    attribute in some other way, or it takes the notice off the display
    without touching the class attribute. *)
Inductive Event : Type :=
| CallShow (message : option string)
| CallHide
| CallUnload
| HostDisappear (id : nat)
| HostClassChange (id : nat)
| HostRemove (id : nat).

(** The host hands the mutation records of a notice's element to the
    observer connected to that element, if any. *)
Definition deliver (id : nat) (changes : list MutationRecord)
           (nt : Notifier) : Notifier :=
  match mutationObserver nt with
  | Some target => if decide (target = id) then onMutation changes nt else nt
  | None => nt
  end.

Definition step (ev : Event) (st : Notifier * Host) : Notifier * Host :=
  let '(nt, h) := st in
  match ev with
  | CallShow message => let '(_, nt', h') := show message nt h in (nt', h')
  | CallHide => hide nt h
  | CallUnload => unload nt h
  | HostDisappear id =>
      (deliver id [mkMutation true true] nt, remove_Notice id h)
  | HostClassChange id =>
      (deliver id [mkMutation true false] nt, h)
  | HostRemove id => (nt, remove_Notice id h)
  end.

Definition run (evs : list Event) (st : Notifier * Host) : Notifier * Host :=
  fold_left (fun st ev => step ev st) evs st.

Definition initial (defaultMessage : string) : Notifier * Host :=
  (new_Notifier defaultMessage, mkHost [] 0).

(** The link between a notifier and the display that every event keeps:
    nothing is on display but the current notice, and the observer watches
    the current notice. *)
Definition consistent (st : Notifier * Host) : Prop :=
  match currentNotice st.1 with
  | Some n =>
      (displayed st.2 = [n] ∨ displayed st.2 = [])
      ∧ mutationObserver st.1 = Some (noticeId n)
  | None => displayed st.2 = [] ∧ mutationObserver st.1 = None
  end.

End Util.

(* ===================================================================== *)
(** * Node's [path] module (POSIX flavour)                                 *)
(* ===================================================================== *)

Module Path.

Definition isAbsolute (path : string) : bool :=
  match path with
  | String c _ => if decide (c = "/"%char) then true else false
  | EmptyString => false
  end.

(** [path.split('/')] *)
Fixpoint split (path : string) : list string :=
  match path with
  | EmptyString => [EmptyString]
  | String c rest =>
      if decide (c = "/"%char) then EmptyString :: split rest
      else
        match split rest with
        | seg :: segs => String c seg :: segs
        | [] => [String c EmptyString]
        end
  end.

(** [segments.join('/')] *)
Fixpoint join (segments : list string) : string :=
  match segments with
  | [] => EmptyString
  | [seg] => seg
  | seg :: rest => seg ++ "/" ++ join rest
  end.

(** One segment of [normalizeString]'s scan.  [res] is the result built so
    far, last segment first.  Empty segments and [.] are dropped; [..]
    removes the last segment, unless there is none or it is itself [..],
    in which case it is kept only when [allowAboveRoot] holds. *)
Definition normalizeSegment (allowAboveRoot : bool) (res : list string)
           (seg : string) : list string :=
  if decide (seg = "" ∨ seg = ".") then res
  else if decide (seg = "..") then
    match res with
    | last :: before =>
        if decide (last = "..")
        then (if allowAboveRoot then ".." :: res else res)
        else before
    | [] => if allowAboveRoot then [".."] else []
    end
  else seg :: res.

Definition normalizeSegments (allowAboveRoot : bool) (segs : list string)
  : list string :=
  rev (fold_left (normalizeSegment allowAboveRoot) segs []).

(** [normalizeString(path, allowAboveRoot, '/', isPosixPathSeparator)]: the
    result has neither a leading nor a trailing slash. *)
Definition normalizeString (path : string) (allowAboveRoot : bool) : string :=
  join (normalizeSegments allowAboveRoot (split path)).

(** The loop of [resolve]: arguments are taken from the last one backwards
    (the working directory comes after the first), empty ones are skipped,
    and the scan stops at the first absolute one. *)
Fixpoint resolveLoop (paths : list string) (resolvedPath : string)
  : string * bool :=
  match paths with
  | [] => (resolvedPath, false)
  | path :: earlier =>
      if JS.truthy path then
        let resolvedPath := path ++ "/" ++ resolvedPath in
        if isAbsolute path then (resolvedPath, true)
        else resolveLoop earlier resolvedPath
      else resolveLoop earlier resolvedPath
  end.

(** [path.resolve(...args)], with [process.cwd()] given as [cwd]. *)
Definition resolve (cwd : string) (args : list string) : string :=
  let '(resolvedPath, resolvedAbsolute) :=
    resolveLoop (rev args ++ [cwd]) "" in
  let resolvedPath := normalizeString resolvedPath (negb resolvedAbsolute) in
  if resolvedAbsolute then "/" ++ resolvedPath
  else if JS.truthy resolvedPath then resolvedPath else ".".

(** An absolute path that [resolve] returns unchanged: the root itself, or
    a slash followed by segments none of which is empty, [.] or [..]. *)
Definition isNormalSegment (seg : string) : bool :=
  if decide (seg = "" ∨ seg = "." ∨ seg = "..") then false else true.

Definition isNormalized (path : string) : bool :=
  match path with
  | String c rest =>
      (if decide (c = "/"%char) then true else false)
      && (if decide (rest = "") then true
          else forallb isNormalSegment (split rest))
  | EmptyString => false
  end.

End Path.

(* ===================================================================== *)
(** * types.ts and the platform                                            *)
(* ===================================================================== *)

Module Types.
Import JS.

(** The export formats [loadEntries] understands ([DatabaseType]). *)
Inductive DatabaseType : Type :=
| biblatex
| csl_json.

(** Modelled from the spec: the class [Library] of [types.ts], which is
    not among the sources.  A Library is a mapping from citekey to Entry
    ([modals.ts] reads it as [library.entries]), and its size is its entry
    count. *)
Record Library (Entry : Type) : Type := new_Library {
  entries : gmap string Entry
}.
Arguments new_Library {Entry} entries.
Arguments entries {Entry} l.

Definition Library_size {Entry : Type} (l : Library Entry) : nat :=
  size (entries l).

(** The remaining exports of [types.ts] that [main.ts] imports, taken as
    parameters:
    - [EntryData], the raw record a parser produces, and [index e k], the
      read [(e as IIndexable)[k]] of a string-typed field ([None] when the
      record has no such field);
    - [loadEntries], the parser;
    - the two adapter classes, as the functions [new adapter(e)];
    - [getTemplateVariablesForCitekey], a method of [Library]. *)
Class Exports : Type := {
  Entry : Type;
  EntryData : Type;
  TemplateVariables : Type;
  index : EntryData -> string -> option string;
  loadEntries : string -> DatabaseType -> Completion (list EntryData);
  EntryBibLaTeXAdapter : EntryData -> Completion Entry;
  EntryCSLAdapter : EntryData -> Completion Entry;
  getTemplateVariablesForCitekey :
    Library Entry -> string -> Completion TemplateVariables
}.

(** What the plugin uses of the platform:
    - [decode buffer] is [new TextDecoder('utf8').decode(new DataView(buffer))];
    - [compileTemplate] is Handlebars' [compile], whose result is a function
      from a context to the rendered text. *)
Record TemplateSettings : Type := mkTemplateSettings { noEscape : bool }.

Class Platform {E : Exports} : Type := {
  decode : list Byte.byte -> Completion string;
  compileTemplate :
    string -> TemplateSettings ->
    Completion (TemplateVariables -> Completion string)
}.

End Types.

(* ===================================================================== *)
(** * main.ts                                                              *)
(* ===================================================================== *)

Module Main.
Import JS Util Types.

(** The fields of [CitationsPluginSettings] that the modelled methods
    read. *)
Record CitationsPluginSettings : Type := mkSettings {
  citationExportPath : string;
  citationExportFormat : DatabaseType;
  literatureNoteTitleTemplate : string
}.

(** [this.app.vault.adapter] *)
Inductive DataAdapter : Type :=
| FileSystemAdapter (basePath : string)
| OtherAdapter.

Inductive ConsoleEntry : Type :=
| console_debug (msg : string)
| console_warn (msg : string)
| console_error (e : Exception).

Section Plugin.
Context {E : Exports} {P : Platform}.

(** The plugin instance together with the part of its environment that its
    methods read or change: the notices on display, the console, the
    working directory and the local files
    ([FileSystemAdapter.readLocalFile]). *)
Record World : Type := mkWorld {
  settings : CitationsPluginSettings;
  library : option (Library Entry);
  loadErrorNotifier : Notifier;
  literatureNoteErrorNotifier : Notifier;
  vaultAdapter : DataAdapter;
  host : Host;
  console : list ConsoleEntry;
  cwd : string;
  readLocalFile : string -> Completion (list Byte.byte)
}.

Definition set_library (l : option (Library Entry)) (w : World) : World :=
  mkWorld (settings w) l (loadErrorNotifier w) (literatureNoteErrorNotifier w)
          (vaultAdapter w) (host w) (console w) (cwd w) (readLocalFile w).

Definition set_loadErrorNotifier (nt : Notifier) (h : Host) (w : World)
  : World :=
  mkWorld (settings w) (library w) nt (literatureNoteErrorNotifier w)
          (vaultAdapter w) h (console w) (cwd w) (readLocalFile w).

Definition log (entry : ConsoleEntry) (w : World) : World :=
  mkWorld (settings w) (library w) (loadErrorNotifier w)
          (literatureNoteErrorNotifier w) (vaultAdapter w) (host w)
          (console w ++ [entry]) (cwd w) (readLocalFile w).

(** [private templateSettings = { noEscape: true }] *)
Definition templateSettings : TemplateSettings := mkTemplateSettings true.

(** ** [resolveLibraryPath] *)

Definition vaultRoot (w : World) : string :=
  match vaultAdapter w with
  | FileSystemAdapter basePath => basePath
  | OtherAdapter => "/"
  end.

Definition resolveLibraryPath (w : World) (rawPath : string) : string :=
  Path.resolve (cwd w) [vaultRoot w; rawPath].

(** ** Building the Library (the [switch] and [new Library(...)] of
    [loadLibrary]) *)

Definition adapter (format : DatabaseType) : EntryData -> Completion Entry :=
  match format with
  | biblatex => EntryBibLaTeXAdapter
  | csl_json => EntryCSLAdapter
  end.

Definition idKey (format : DatabaseType) : string :=
  match format with
  | biblatex => "key"
  | csl_json => "id"
  end.

(** The property name under which [Object.fromEntries] files a record. *)
Definition citekey (format : DatabaseType) (e : EntryData) : string :=
  ToPropertyKey (index e (idKey format)).

(** A record and the pair that [entries.map] makes of it: the record's
    citekey and its adapted entry. *)
Definition paired (format : DatabaseType) (e : EntryData)
           (kv : string * Entry) : Prop :=
  kv.1 = citekey format e ∧ adapter format e = Normal kv.2.

Definition newLibrary (format : DatabaseType) (entries : list EntryData)
  : Completion (Library Entry) :=
  bind (array_map
          (fun e => bind (adapter format e)
                         (fun a => Normal (citekey format e, a)))
          entries)
       (fun pairs => Normal (new_Library (fromEntries pairs))).

(** ** Statements: state and exceptions

    A statement runs in a world, yields a value or throws, and leaves a
    world behind. *)
Definition M (A : Type) : Type := World -> Completion A * World.

Definition ret {A : Type} (a : A) : M A := fun w => (Normal a, w).

Definition bindM {A B : Type} (c : M A) (k : A -> M B) : M B :=
  fun w =>
    match c w with
    | (Normal a, w') => k a w'
    | (Throw e, w') => (Throw e, w')
    end.

(** An expression without side effects. *)
Definition eval {A : Type} (c : Completion A) : M A := fun w => (c, w).

(** A read of the plugin's state. *)
Definition read {A : Type} (f : World -> A) : M A := fun w => (Normal (f w), w).

Definition console_log (entry : ConsoleEntry) : M unit :=
  fun w => (Normal tt, log entry w).

(** [try { body } catch (e) { handler }] *)
Definition try_catch {A : Type} (body : M A) (handler : Exception -> M A)
  : M A :=
  fun w =>
    match body w with
    | (Normal a, w') => (Normal a, w')
    | (Throw e, w') => handler e w'
    end.

(** [this.loadErrorNotifier.show()] *)
Definition loadErrorNotifier_show : M (option bool) :=
  fun w =>
    let '(shown, nt, h) := show None (loadErrorNotifier w) (host w) in
    (Normal shown, set_loadErrorNotifier nt h w).

(** The notifier and the display after one call of [show()] on the
    load-error notifier. *)
Definition shown (w : World) : Notifier * Host :=
  let '(_, nt, h) := show None (loadErrorNotifier w) (host w) in (nt, h).

Notation "x <- c ;; k" := (bindM c (fun x => k))
  (at level 100, c at next level, right associativity).
Notation "c ;;; k" := (bindM c (fun _ => k))
  (at level 100, right associativity).

(** ** [loadLibrary] *)

(** [this.library.size]: a [TypeError] when [this.library] is [undefined]
    or [null]. *)
Definition library_size (l : option (Library Entry)) : Completion nat :=
  match l with
  | Some lib => Normal (Library_size lib)
  | None =>
      Throw (TypeError "Cannot read properties of undefined (reading 'size')")
  end.

(** The [try] block from the point where the awaited read has settled
    with [settled]. *)
Definition tryBlock (settled : Completion (list Byte.byte))
  : M (option (Library Entry)) :=
  buffer <- eval settled ;;
  value <- eval (decode buffer) ;;
  format <- read (fun w => citationExportFormat (settings w)) ;;
  entries <- eval (loadEntries value format) ;;
  newLibrary <- eval (newLibrary format entries) ;;
  current <- read library ;;
  size <- eval (library_size current) ;;
  console_log
    (console_debug ("Citation plugin: successfully loaded library with "
                    ++ pretty size ++ " entries.")) ;;;
  ret (Some newLibrary).

(** The [catch] block. *)
Definition catchBlock (e : Exception) : M (option (Library Entry)) :=
  console_log (console_error e) ;;;
  loadErrorNotifier_show ;;;
  ret None.

(** [loadLibrary] from the moment the read settles to its return. *)
Definition loadLibrary_resume (settled : Completion (list Byte.byte))
  : M (option (Library Entry)) :=
  try_catch (tryBlock settled) catchBlock.

(** [loadLibrary] up to the [await]: either the export path is unset and
    the call is about to return [null] ([inl]), or the read of the resolved
    path is started ([inr]). *)
Definition loadLibrary_start : M (option (Library Entry) + string) :=
  console_log (console_debug "Citation plugin: Reloading library") ;;;
  path <- read (fun w => citationExportPath (settings w)) ;;
  if truthy path then
    filePath <- read (fun w => resolveLibraryPath w path) ;;
    ret (inr filePath)
  else
    console_log
      (console_warn
         "Citations plugin: citation export path is not set. Please update plugin settings.") ;;;
    ret (inl None).

(** [loadLibrary], run without any other task in between: the read is
    answered by the local files of the world. *)
Definition loadLibrary : M (option (Library Entry)) :=
  started <- loadLibrary_start ;;
  match started with
  | inl result => ret result
  | inr filePath =>
      settled <- read (fun w => readLocalFile w filePath) ;;
      loadLibrary_resume settled
  end.

(** ** [getTitleForCitekey] *)

Definition getTitleForCitekey (w : World) (citekey : string)
  : Completion string :=
  bind (compileTemplate (literatureNoteTitleTemplate (settings w))
                        templateSettings) (fun template =>
  bind (match library w with
        | Some lib => getTemplateVariablesForCitekey lib citekey
        | None =>
            Throw (TypeError
              "Cannot read properties of undefined (reading 'getTemplateVariablesForCitekey')")
        end) (fun variables =>
  bind (template variables) (fun unsafeTitle =>
  Normal (replace_class DISALLOWED_FILENAME_CHARACTERS_RE "_"%char
                        unsafeTitle)))).

(** ** The reload callbacks

    Three places run [this.library = await this.loadLibrary()]: [init]
    itself, the watcher's [change] handler and the command
    [update-bib-data].  Callbacks run one at a time, and a running callback
    gives way only at its [await]: the reads are the only points where
    another callback can come in between. *)
Inductive Source : Type :=
| Init
| WatcherChange
| ManualRefresh.

(** A load waiting for its read. *)
Record Pending : Type := mkPending {
  source : Source;
  filePath : string
}.

Record Loop : Type := mkLoop {
  world : World;
  inFlight : gmap nat Pending;
  nextLoad : nat
}.

(** What the event loop dispatches: a trigger starts a load, which runs up
    to its read; a settled read resumes its load, which runs to its return
    and is followed by the assignment to [this.library]. *)
Inductive Dispatch : Type :=
| Trigger (src : Source)
| ReadSettled (load : nat) (read : Completion (list Byte.byte)).

(** [this.library = await this.loadLibrary()], after the load has returned
    or thrown: the assignment runs only when the load returned. *)
Definition assign (s : Loop) (inFlight : gmap nat Pending)
           (outcome : Completion (option (Library Entry)) * World) : Loop :=
  match outcome with
  | (Normal result, w) => mkLoop (set_library result w) inFlight (nextLoad s)
  | (Throw _, w) => mkLoop w inFlight (nextLoad s)
  end.

Definition dispatch (d : Dispatch) (s : Loop) : Loop :=
  match d with
  | Trigger src =>
      match loadLibrary_start (world s) with
      | (Normal (inr filePath), w) =>
          mkLoop w (<[nextLoad s := mkPending src filePath]> (inFlight s))
                 (S (nextLoad s))
      | (Normal (inl result), w) => assign s (inFlight s) (Normal result, w)
      | (Throw e, w) => assign s (inFlight s) (Throw e, w)
      end
  | ReadSettled load settled =>
      match inFlight s !! load with
      | Some _ =>
          assign s (delete load (inFlight s))
                 (loadLibrary_resume settled (world s))
      | None => s
      end
  end.

Definition dispatchAll (ds : list Dispatch) (s : Loop) : Loop :=
  fold_left (fun s d => dispatch d s) ds s.

End Plugin.
End Main.

(* ===================================================================== *)
(** * A small instance, to run the definitions                             *)
(* ===================================================================== *)

Module Demo.
Import JS Util Types Main.

(** Records and entries are lists of fields.  The parser turns every
    non-blank character of the content into one record whose [id] and
    [key] are that character; the empty content is a parse error. *)
Definition Fields : Type := list (string * string).

Fixpoint field (e : Fields) (k : string) : option string :=
  match e with
  | [] => None
  | (k', v) :: e' => if decide (k' = k) then Some v else field e' k
  end.

Fixpoint records (pos : nat) (content : list ascii) : list Fields :=
  match content with
  | [] => []
  | c :: rest =>
      if decide (c = " "%char) then records (S pos) rest
      else [("id", String c ""); ("key", String c ""); ("pos", pretty pos)]
           :: records (S pos) rest
  end.

#[global] Instance exports : Exports := {|
  Entry := Fields;
  EntryData := Fields;
  TemplateVariables := Fields;
  index := field;
  loadEntries := fun value _ =>
    if truthy value then Normal (records 0 (chars value))
    else Throw (Error "Unexpected end of input");
  EntryBibLaTeXAdapter := fun e => Normal (("format", "biblatex") :: e);
  EntryCSLAdapter := fun e => Normal (("format", "csl-json") :: e);
  getTemplateVariablesForCitekey := fun lib citekey =>
    match entries lib !! citekey with
    | Some e => Normal (("citekey", citekey) :: e)
    | None => Throw (Error "citekey not found")
    end
|}.

(** A template renders to its own text followed by the citekey. *)
#[global] Instance platform : Platform := {|
  decode := fun buffer => Normal (string_of_list_byte buffer);
  compileTemplate := fun template _ =>
    Normal (fun variables =>
              Normal (template ++ default "" (field variables "citekey")))
|}.

Definition demoSettings (path : string) (format : DatabaseType)
  : CitationsPluginSettings :=
  mkSettings path format "@".

Definition demoFiles (path : string) : Completion (list Byte.byte) :=
  if decide (path = "/vault/refs.json") then Normal (list_byte_of_string "ab a")
  else Throw (Error "ENOENT").

(** The plugin right after construction: no library, nothing on display. *)
Definition fresh (path : string) (format : DatabaseType) : World :=
  mkWorld (demoSettings path format) None
          (new_Notifier "Unable to load citations. Please update Citations plugin settings.")
          (new_Notifier "Unable to access literature note. Please check that the literature note folder exists, or update the Citations plugin settings.")
          (FileSystemAdapter "/vault") (mkHost [] 0) [] "/home/user" demoFiles.

(** The same plugin once [this.library] holds a Library. *)
Definition loaded (path : string) (format : DatabaseType) : World :=
  set_library (Some (new_Library ∅)) (fresh path format).

(** A plugin whose Library holds one entry and whose title template has
    characters that file names must not contain. *)
Definition published : World :=
  mkWorld (mkSettings "refs.json" csl_json "2020: What? <draft> ")
          (Some (new_Library {[ "a" := [("id", "a"); ("key", "a")] ]}))
          (new_Notifier "Unable to load citations. Please update Citations plugin settings.")
          (new_Notifier "Unable to access literature note. Please check that the literature note folder exists, or update the Citations plugin settings.")
          (FileSystemAdapter "/vault") (mkHost [] 0) [] "/home/user" demoFiles.

(** The watcher's load is triggered first and the manual refresh second;
    both are waiting for their reads. *)
Definition twoInFlight : Loop :=
  dispatchAll [Trigger WatcherChange; Trigger ManualRefresh]
              (mkLoop (loaded "refs.json" csl_json) ∅ 0).

End Demo.

(* ===================================================================== *)
(** * Node's [path.join]                                                   *)
(* ===================================================================== *)

Module Posix.
Import JS.

(** [path.charCodeAt(path.length - 1) === CHAR_FORWARD_SLASH] *)
Fixpoint endsWithSlash (path : string) : bool :=
  match path with
  | EmptyString => false
  | String c EmptyString => if decide (c = "/"%char) then true else false
  | String _ rest => endsWithSlash rest
  end.

(** [path.normalize(path)] *)
Definition normalize (path : string) : string :=
  if truthy path then
    let isAbsolute := Path.isAbsolute path in
    let trailingSeparator := endsWithSlash path in
    let path := Path.normalizeString path (negb isAbsolute) in
    if truthy path then
      let path := if trailingSeparator then path ++ "/" else path in
      if isAbsolute then "/" ++ path else path
    else if isAbsolute then "/"
    else if trailingSeparator then "./" else "."
  else ".".

(** [path.join(...args)]: the non-empty arguments are glued with slashes
    and the result is normalised. *)
Definition join (args : list string) : string :=
  match filter (fun arg => truthy arg = true) args with
  | [] => "."
  | parts => normalize (Path.join parts)
  end.

(** A segment without a slash, and a list of segments that are in normal
    form: each without a slash and none of them empty, [.] or [..]. *)
Definition slashFree (seg : string) : Prop := "/"%char ∉ chars seg.

Definition normalSegments (segs : list string) : Prop :=
  Forall (fun seg => Path.isNormalSegment seg = true ∧ slashFree seg) segs.

(** The directory part of [path.join(folder, file)]: the segments of the
    normalised folder. *)
Definition dirSegments (folder : string) : list string :=
  if truthy folder
  then Path.normalizeSegments (negb (Path.isAbsolute folder)) (Path.split folder)
  else [].

End Posix.

(* ===================================================================== *)
(** * main.ts: the literature notes                                        *)
(* ===================================================================== *)

Module Notes.
Import JS Util Types Main.

(** A file or folder of the vault: its [path], and whether
    [vault.getMarkdownFiles()] lists it. *)
Record TAbstractFile : Type := mkFile {
  path : string;
  markdown : bool
}.

(** What the note methods use of Obsidian and of the runtime:
    - [normalizePath], Obsidian's function of that name;
    - [toLowerCase], the string method;
    - [create vault path data], [vault.create(path, data)] on a vault with
      the given files: the new file, or an exception;
    - [withSelectedText s variables], the object
      [{ selectedText: s, ...variables }]. *)
Class Obsidian {E : Exports} : Type := {
  normalizePath : string -> string;
  toLowerCase : string -> string;
  create : list TAbstractFile -> string -> string -> Completion TAbstractFile;
  withSelectedText : string -> TemplateVariables -> TemplateVariables
}.

Section Notes.
Context {E : Exports} {P : Platform} {O : Obsidian}.

(** The plugin with the rest of what the note methods read or change: two
    more fields of the settings, the files of the vault, and the selection
    of the active Markdown editor ([None] when the getter [editor] returns
    [null] because no Markdown view is active). *)
Record Workspace : Type := mkWorkspace {
  plugin : World;
  literatureNoteFolder : string;
  literatureNoteContentTemplate : string;
  vault : list TAbstractFile;
  editor : option string
}.

Definition set_plugin (w : World) (ws : Workspace) : Workspace :=
  mkWorkspace w (literatureNoteFolder ws) (literatureNoteContentTemplate ws)
              (vault ws) (editor ws).

Definition add_file (file : TAbstractFile) (ws : Workspace) : Workspace :=
  mkWorkspace (plugin ws) (literatureNoteFolder ws)
              (literatureNoteContentTemplate ws) (vault ws ++ [file])
              (editor ws).

Definition set_literatureNoteErrorNotifier (nt : Notifier) (h : Host)
           (w : World) : World :=
  mkWorld (settings w) (library w) (loadErrorNotifier w) nt
          (vaultAdapter w) h (console w) (cwd w) (readLocalFile w).

(** [getPathForCitekey] *)
Definition getPathForCitekey (ws : Workspace) (citekey : string)
  : Completion string :=
  bind (getTitleForCitekey (plugin ws) citekey) (fun title =>
  Normal (Posix.join [literatureNoteFolder ws; title ++ ".md"])).

(** [this.editor.getSelection()] *)
Definition getSelection (ws : Workspace) : Completion string :=
  match editor ws with
  | Some selection => Normal selection
  | None =>
      Throw (TypeError
               "Cannot read properties of null (reading 'getSelection')")
  end.

(** [getInitialContentForCitekey] *)
Definition getInitialContentForCitekey (ws : Workspace) (citekey : string)
  : Completion string :=
  bind (compileTemplate (literatureNoteContentTemplate ws) templateSettings)
       (fun template =>
  bind (getSelection ws) (fun selectedText =>
  bind (match library (plugin ws) with
        | Some lib => getTemplateVariablesForCitekey lib citekey
        | None =>
            Throw (TypeError
              "Cannot read properties of undefined (reading 'getTemplateVariablesForCitekey')")
        end) (fun variables =>
  template (withSelectedText selectedText variables)))).

(** [vault.getAbstractFileByPath(path)] *)
Definition getAbstractFileByPath (p : string) (files : list TAbstractFile)
  : option TAbstractFile :=
  List.find (fun f => if decide (path f = p) then true else false) files.

(** [vault.getMarkdownFiles()] *)
Definition getMarkdownFiles (files : list TAbstractFile)
  : list TAbstractFile :=
  List.filter markdown files.

(** The case-insensitive lookup of [getOrCreateLiteratureNoteFile]. *)
Definition matches (normalizedPath : string) (files : list TAbstractFile)
  : list TAbstractFile :=
  List.filter
    (fun f => if decide (toLowerCase (path f) = toLowerCase normalizedPath)
              then true else false)
    (getMarkdownFiles files).

(** [this.literatureNoteErrorNotifier.show()] *)
Definition literatureNoteErrorNotifier_show (ws : Workspace) : Workspace :=
  let w := plugin ws in
  let '(_, nt, h) := show None (literatureNoteErrorNotifier w) (host w) in
  set_plugin (set_literatureNoteErrorNotifier nt h w) ws.

(** [getOrCreateLiteratureNoteFile]: the file, or the exception with which
    the returned promise is rejected. *)
Definition getOrCreateLiteratureNoteFile (citekey : string) (ws : Workspace)
  : Completion TAbstractFile * Workspace :=
  match getPathForCitekey ws citekey with
  | Throw e => (Throw e, ws)
  | Normal path =>
      let normalizedPath := normalizePath path in
      match getAbstractFileByPath normalizedPath (vault ws) with
      | Some file => (Normal file, ws)
      | None =>
          match matches normalizedPath (vault ws) with
          | file :: _ => (Normal file, ws)
          | [] =>
              match bind (getInitialContentForCitekey ws citekey)
                         (fun data => create (vault ws) path data) with
              | Normal file => (Normal file, add_file file ws)
              | Throw exc => (Throw exc, literatureNoteErrorNotifier_show ws)
              end
          end
      end
  end.

(** The path that [init] hands to [chokidar.watch]. *)
Definition watchedPath (w : World) : string :=
  resolveLibraryPath w (citationExportPath (settings w)).

End Notes.
End Notes.

(* ===================================================================== *)
(** * modals.ts                                                            *)
(* ===================================================================== *)

Module Modals.
Import JS Types Main.

(** ** [SearchModal]: the constructor's read of [plugin.library.entries] *)
Definition suggestions `{E : Exports} (plugin : World)
  : Completion (gmap string Entry) :=
  match library plugin with
  | Some lib => Normal (entries lib)
  | None =>
      Throw (TypeError "Cannot read properties of undefined (reading 'entries')")
  end.

(** ** The fields of an [Entry] that the modals read.  A field that is
    [undefined] is [None]. *)
Record Item : Type := mkItem {
  id : string;
  title : option string;
  authorString : option string;
  year : option Z;
  files : option (list string);
  zoteroSelectURI : string
}.

(** A substitution in a template literal: [undefined] is spelled out. *)
Definition interpolate (v : option string) : string :=
  match v with
  | Some s => s
  | None => "undefined"
  end.

(** [getItemText] *)
Definition getItemText (item : Item) : string :=
  interpolate (title item) ++ " " ++ interpolate (authorString item) ++ " "
  ++ interpolate (pretty <$> year item).

(** [renderSuggestion]: [const { title = '' } = match.item] and
    [authorStringOffset]. *)
Definition titleOrEmpty (item : Item) : string :=
  match title item with
  | Some t => t
  | None => ""
  end.

Definition authorStringOffset (item : Item) : Z :=
  1 + Z.of_nat (String.length (titleOrEmpty item)).

(** [shiftMatches] of [renderSuggestion]; a match is the pair of its start
    and its end. *)
Definition shiftMatches (matches : list (Z * Z)) (start end_ : Z)
  : list (Z * Z) :=
  List.filter
    (fun m => if decide (0 <= m.1)%Z then true else false)
    (List.map (fun m => (m.1 - start, Z.min (m.2 - start) end_)%Z) matches).

(** The two calls of [shiftMatches] in [renderSuggestion]. *)
Definition titleMatches (item : Item) (allMatches : list (Z * Z))
  : list (Z * Z) :=
  shiftMatches allMatches 0 (Z.of_nat (String.length (titleOrEmpty item))).

Definition authorMatches (item : Item) (allMatches : list (Z * Z))
  : option (list (Z * Z)) :=
  match authorString item with
  | Some a =>
      if truthy a then
        Some (shiftMatches allMatches (authorStringOffset item)
                (authorStringOffset item + Z.of_nat (String.length a)))
      else None
  | None => None
  end.

(** ** [OpenNoteModal.onChooseItem] *)

Inductive UIEvent : Type :=
| MouseEvent
| KeyboardEvent (key : string) (ctrlKey shiftKey : bool).

Inductive Action : Type :=
| OpenLiteratureNote (citekey : string) (newPane : bool)
| ShowNotice (message : string)
| OpenURL (url : string)
| NoAction.

Section OpenNoteModal.
Variable toLowerCase : string -> string.

(** [s.endsWith(suffix)] *)
Definition endsWith (s suffix : string) : bool :=
  let n := String.length s in
  let k := String.length suffix in
  if decide (k <= n)%nat
  then (if decide (String.substring (n - k) k s = suffix) then true else false)
  else false.

Definition pdfPaths (item : Item) : list string :=
  List.filter (fun path => endsWith (toLowerCase path) "pdf")
              (default [] (files item)).

Definition onChooseItem (item : Item) (evt : UIEvent) : Action :=
  match evt with
  | MouseEvent => OpenLiteratureNote (id item) false
  | KeyboardEvent key ctrlKey shiftKey =>
      if decide (key = "Enter") then OpenLiteratureNote (id item) ctrlKey
      else if decide (key = "Tab") then
        if shiftKey then
          match pdfPaths item with
          | [] => ShowNotice "This reference has no associated PDF files."
          | first :: _ => OpenURL ("file://" ++ first)
          end
        else OpenURL (zoteroSelectURI item)
      else NoAction
  end.

End OpenNoteModal.
End Modals.

(* ===================================================================== *)
(** * A small vault, to run the note methods                               *)
(* ===================================================================== *)

Module DemoNotes.
Import JS Util Types Main Notes Modals.

(** Lower case for the letters A to Z. *)
Definition lowerChar (c : ascii) : ascii :=
  let n := nat_of_ascii c in
  if decide (65 <= n <= 90)%nat then ascii_of_nat (n + 32) else c.

Fixpoint lowerCase (s : string) : string :=
  match s with
  | EmptyString => EmptyString
  | String c rest => String (lowerChar c) (lowerCase rest)
  end.

#[global] Instance TAbstractFile_eq_dec : EqDecision TAbstractFile.
Proof. solve_decision. Defined.

(** The folder of a path: all its segments but the last. *)
Definition parent (p : string) : string :=
  Path.join (removelast (Path.split p)).

(** Paths are taken as they are; a file can be created at the top of the
    vault or in a folder that the vault has; the selected text is a
    variable like the others, which a variable of the entry overrides. *)
#[global] Instance obsidian : Obsidian (E := Demo.exports) := {|
  normalizePath := fun p => p;
  toLowerCase := lowerCase;
  create := fun files p data =>
    if decide (parent p = "" ∨ mkFile (parent p) false ∈ files)
    then Normal (mkFile p true)
    else Throw (Error "ENOENT: no such file or directory");
  withSelectedText := fun selectedText variables =>
    @app (string * string) variables [("selectedText", selectedText)]
|}.

(** The plugin of [Demo.published] over a vault. *)
Definition desk (folder : string) (files : list TAbstractFile)
  : Workspace :=
  mkWorkspace Demo.published folder "Notes on " files (Some "").

Definition paper : Item :=
  mkItem "ab20" (Some "AB") (Some "X") (Some 2020%Z)
         (Some ["/z/ab20.txt"; "/z/AB20.PDF"; "/z/ab20-suppl.pdf"])
         "zotero://select/items/@ab20".

Definition untitled : Item :=
  mkItem "x21" None (Some "X") (Some 2021%Z) None
         "zotero://select/items/@x21".

End DemoNotes.

(* ===================================================================== *)
(** * The platform's UTF-8 decoder                                         *)
(* ===================================================================== *)

Module TextDecoder.
Import JS Types.
Local Open Scope N_scope.

(** [loadLibrary] builds its decoder with [new TextDecoder('utf8')]: the
    option [fatal] is off, so the decoder never throws and puts U+FFFD in
    the place of every malformed sequence; the option [ignoreBOM] is off,
    so a leading byte order mark is dropped.  The decoder follows the
    Encoding Standard.  A decoded text is held as the bytes of its UTF-8
    form. *)
Record State : Type := mkState {
  codePoint : N;
  bytesSeen : N;
  bytesNeeded : N;
  lowerBoundary : N;
  upperBoundary : N
}.

Definition start : State := mkState 0 0 0 128 191.

Definition between (lo hi b : N) : bool := (lo <=? b) && (b <=? hi).

(** One byte with no sequence under way: the code points emitted, whether
    the byte is an error, and the next state. *)
Definition lead (b : N) : list N * bool * State :=
  if b <=? 127 then ([b], false, start)
  else if between 194 223 b then
    ([], false, mkState (N.land b 31) 0 1 128 191)
  else if between 224 239 b then
    ([], false,
     mkState (N.land b 15) 0 2 (if b =? 224 then 160 else 128)
             (if b =? 237 then 159 else 191))
  else if between 240 244 b then
    ([], false,
     mkState (N.land b 7) 0 3 (if b =? 240 then 144 else 128)
             (if b =? 244 then 143 else 191))
  else ([65533], true, start).

(** One byte in any state.  A byte that cannot continue the sequence under
    way ends it with an error and is then read again as a first byte. *)
Definition handle (st : State) (b : N) : list N * bool * State :=
  if bytesNeeded st =? 0 then lead b
  else if between (lowerBoundary st) (upperBoundary st) b then
    let cp := N.lor (N.shiftl (codePoint st) 6) (N.land b 63) in
    if bytesSeen st + 1 =? bytesNeeded st then ([cp], false, start)
    else (@nil N, false,
          mkState cp (bytesSeen st + 1) (bytesNeeded st) 128 191)
  else
    let '(out, _, st') := lead b in (65533 :: out, true, st').

(** The code points of a byte sequence, and whether any error occurred. *)
Fixpoint codePoints (st : State) (bytes : list N) : list N * bool :=
  match bytes with
  | nil => if bytesNeeded st =? 0 then (nil, false) else (65533 :: nil, true)
  | b :: rest =>
      let '(out, err, st') := handle st b in
      let '(more, errs) := codePoints st' rest in
      ((out ++ more)%list, err || errs)
  end.

(** The byte order mark is dropped when it comes first. *)
Definition dropBOM (cps : list N) : list N :=
  match cps with
  | cp :: rest => if cp =? 65279 then rest else cps
  | nil => nil
  end.

(** The UTF-8 form of a code point. *)
Definition utf8 (cp : N) : list N :=
  if cp <? 128 then [cp]
  else if cp <? 2048 then
    [N.lor 192 (N.shiftr cp 6); N.lor 128 (N.land cp 63)]
  else if cp <? 65536 then
    [N.lor 224 (N.shiftr cp 12); N.lor 128 (N.land (N.shiftr cp 6) 63);
     N.lor 128 (N.land cp 63)]
  else
    [N.lor 240 (N.shiftr cp 18); N.lor 128 (N.land (N.shiftr cp 12) 63);
     N.lor 128 (N.land (N.shiftr cp 6) 63); N.lor 128 (N.land cp 63)].

Fixpoint text (bytes : list N) : string :=
  match bytes with
  | nil => EmptyString
  | b :: rest => String (ascii_of_N b) (text rest)
  end.

(** [new TextDecoder('utf8').decode(new DataView(buffer))] *)
Definition decode (buffer : list Byte.byte) : string :=
  text (concat (List.map utf8
                  (dropBOM (codePoints start (List.map Byte.to_N buffer)).1))).


(** The platform with this decoder, over the exports of the small instance;
    templates as there. *)
Definition platform : Platform (E := Demo.exports) :=
  Build_Platform Demo.exports
    (fun buffer => Normal (decode buffer))
    (compileTemplate (Platform := Demo.platform)).


End TextDecoder.

(* ===================================================================== *)
(** * Properties of the Notifier                                           *)
(* ===================================================================== *)

Local Open Scope nat_scope.
Local Open Scope list_scope.

Section NotifierProperties.
Import JS Util.

Lemma initial_consistent (defaultMessage : string) :
  consistent (initial defaultMessage).
Proof. by split. Qed.

Lemma remove_Notice_single (n : NoticeExt) (next : nat) :
  remove_Notice (noticeId n) (mkHost [n] next) = mkHost [] next.
Proof.
  unfold remove_Notice. simpl. f_equal.
  rewrite filter_cons. by rewrite decide_False; [|intros H; apply H].
Qed.

Lemma remove_Notice_other (n : NoticeExt) (id next : nat) :
  noticeId n ≠ id -> remove_Notice id (mkHost [n] next) = mkHost [n] next.
Proof.
  intros Hne. unfold remove_Notice. simpl. f_equal.
  rewrite filter_cons. by rewrite decide_True.
Qed.

(** Every event keeps the notifier and the display consistent. *)
Lemma remove_Notice_empty (id next : nat) :
  remove_Notice id (mkHost [] next) = mkHost [] next.
Proof. reflexivity. Qed.

(** Taking a notice off a display of at most one notice leaves the display
    as it was or empty. *)
Lemma remove_Notice_at_most (n : NoticeExt) (id : nat) (h : Host) :
  displayed h = [n] ∨ displayed h = [] ->
  displayed (remove_Notice id h) = [n] ∨ displayed (remove_Notice id h) = [].
Proof.
  destruct h as [shown next]. intros [Hd|Hd]; simpl in Hd; subst shown.
  - destruct (decide (noticeId n = id)) as [<-|Hne].
    + right. by rewrite remove_Notice_single.
    + left. by rewrite remove_Notice_other.
  - by right.
Qed.

Lemma remove_Notice_current (n : NoticeExt) (h : Host) :
  displayed h = [n] ∨ displayed h = [] ->
  displayed (remove_Notice (noticeId n) h) = [].
Proof.
  destruct h as [shown next]. intros [Hd|Hd]; simpl in Hd; subst shown.
  - by rewrite remove_Notice_single.
  - done.
Qed.

(** Every event keeps the notifier and the display consistent. *)
Lemma step_consistent (ev : Event) (st : Notifier * Host) :
  consistent st -> consistent (step ev st).
Proof.
  destruct st as [[msg cur obs] h].
  unfold consistent. cbn -[remove_Notice].
  destruct cur as [n|]; cbn -[remove_Notice].
  - intros (Hshown & ->).
    destruct ev as [message| | |id|id|id]; cbn -[remove_Notice].
    + done.
    + by rewrite remove_Notice_current.
    + by rewrite remove_Notice_current.
    + unfold deliver. cbn -[remove_Notice].
      destruct (decide (noticeId n = id)) as [<-|Hne]; cbn -[remove_Notice].
      * by rewrite remove_Notice_current.
      * split; [by apply remove_Notice_at_most|done].
    + unfold deliver. cbn. by destruct (decide (noticeId n = id)).
    + split; [by apply remove_Notice_at_most|done].
  - intros (Hshown & ->).
    destruct ev as [message| | |id|id|id]; cbn -[remove_Notice]; try done.
    + rewrite Hshown. split; [by left|done].
    + destruct h as [shown next]. simpl in Hshown. by subst shown.
    + destruct h as [shown next]. simpl in Hshown. by subst shown.
Qed.

Lemma run_consistent (evs : list Event) (st : Notifier * Host) :
  consistent st -> consistent (run evs st).
Proof.
  revert st. induction evs as [|ev evs IH]; intros st Hst; [done|].
  simpl. apply IH. by apply step_consistent.
Qed.

(** In a consistent state at most one notice is on display, and it is the
    notice the notifier holds. *)
Lemma consistent_displayed (st : Notifier * Host) :
  consistent st ->
  length (displayed st.2) ≤ 1 ∧
  (displayed st.2 ≠ [] ->
   ∃ n, currentNotice st.1 = Some n ∧ displayed st.2 = [n]).
Proof.
  unfold consistent. destruct (currentNotice st.1) as [n|].
  - intros ([-> | ->] & _); (split; [simpl; lia|]); [|done].
    intros _. by exists n.
  - intros (-> & _). split; [simpl; lia|]. done.
Qed.

Lemma show_suppressed (message : option string) (nt : Notifier) (h : Host)
      (n : NoticeExt) :
  currentNotice nt = Some n -> show message nt h = (Some false, nt, h).
Proof. intros Hcur. unfold show. by rewrite Hcur. Qed.

(** C4. Over every sequence of method calls and host events on a Notifier,
    at most one of its notices is on display at any time; and whenever one
    is on display, a call to [show] returns [false], creates no notice and
    leaves the notifier and the display as they were. *)
Theorem Notifier_at_most_one_notice (defaultMessage : string)
        (evs : list Event) (message : option string) :
  let st := run evs (initial defaultMessage) in
  length (displayed st.2) ≤ 1 ∧
  (displayed st.2 ≠ [] -> show message st.1 st.2 = (Some false, st.1, st.2)).
Proof.
  intros st.
  assert (Hc : consistent st)
    by (apply run_consistent, initial_consistent).
  destruct (consistent_displayed st Hc) as [Hlen Hshown].
  split; [exact Hlen|].
  intros Hne. destruct (Hshown Hne) as (n & Hcur & _).
  by apply show_suppressed with n.
Qed.

Lemma Notifier_at_most_one_notice_witness :
  let st := run [CallShow None; CallShow (Some "again"); HostClassChange 0]
                (initial "Unable to load citations.") in
  displayed st.2 = [mkNotice 0 "Unable to load citations."] ∧
  length (displayed st.2) ≤ 1 ∧
  show (Some "once more") st.1 st.2 = (Some false, st.1, st.2).
Proof.
  intros st. split; [reflexivity|].
  destruct (Notifier_at_most_one_notice
              "Unable to load citations."
              [CallShow None; CallShow (Some "again"); HostClassChange 0]
              (Some "once more")) as [Hlen Hshow].
  split; [exact Hlen|]. apply Hshow. discriminate.
Defined.

End NotifierProperties.

(* ===================================================================== *)
(** * Properties of the JavaScript runtime functions                       *)
(* ===================================================================== *)

Section RuntimeProperties.
Import JS.
Context {A B V : Type}.

Lemma array_map_total (f : A -> Completion B) (l : list A) :
  Forall (fun x => ∃ y, f x = Normal y) l -> ∃ ys, array_map f l = Normal ys.
Proof.
  induction 1 as [|x l [y Hy] _ [ys Hys]]; simpl.
  - by exists [].
  - rewrite Hy. simpl. rewrite Hys. simpl. by exists (y :: ys).
Qed.

Lemma array_map_Normal (f : A -> Completion B) (l : list A) (ys : list B) :
  array_map f l = Normal ys -> Forall2 (fun x y => f x = Normal y) l ys.
Proof.
  revert ys. induction l as [|x l IH]; simpl; intros ys Hys.
  - injection Hys as <-. constructor.
  - destruct (f x) as [y|e] eqn:Hfx; simpl in Hys; [|discriminate].
    destruct (array_map f l) as [ys'|e]; simpl in Hys; [|discriminate].
    injection Hys as <-. constructor; [done|]. by apply IH.
Qed.

Lemma defineAll_app (l1 l2 : list (string * V)) (obj : gmap string V) :
  defineAll (l1 ++ l2) obj = defineAll l2 (defineAll l1 obj).
Proof. apply fold_left_app. Qed.

Lemma defineAll_lookup_fresh (l : list (string * V)) (obj : gmap string V)
      (k : string) :
  k ∉ l.*1 -> defineAll l obj !! k = obj !! k.
Proof.
  revert obj. induction l as [|[k' v] l IH]; intros obj Hk; [done|].
  simpl in *. apply not_elem_of_cons in Hk as [Hne Hk].
  unfold defineAll in *. simpl. rewrite IH; [|done].
  by rewrite lookup_insert_ne.
Qed.

Lemma defineAll_lookup_Some (l : list (string * V)) (obj : gmap string V)
      (k : string) (v : V) :
  defineAll l obj !! k = Some v -> obj !! k = Some v ∨ (k, v) ∈ l.
Proof.
  revert obj. induction l as [|[k' v'] l IH]; intros obj Hk; [by left|].
  unfold defineAll in *. simpl in Hk. apply IH in Hk as [Hk|Hk].
  - destruct (decide (k' = k)) as [->|Hne].
    + rewrite lookup_insert_eq in Hk. injection Hk as ->.
      right. apply list_elem_of_here.
    + rewrite lookup_insert_ne in Hk; [|done]. by left.
  - right. by apply list_elem_of_further.
Qed.

Lemma defineAll_dom (l : list (string * V)) (obj : gmap string V) :
  dom (defineAll l obj) = dom obj ∪ list_to_set l.*1.
Proof.
  revert obj. induction l as [|[k v] l IH]; intros obj.
  - simpl. by rewrite (right_id_L ∅ (∪)).
  - unfold defineAll in *. simpl. rewrite IH, dom_insert_L.
    rewrite (comm_L (∪) {[k]} (dom obj)). by rewrite (assoc_L (∪)).
Qed.

(** Last write wins: the value filed under a key is the one of the last
    pair that carries the key. *)
Lemma fromEntries_last (l1 l2 : list (string * V)) (k : string) (v : V) :
  k ∉ l2.*1 -> fromEntries (l1 ++ (k, v) :: l2) !! k = Some v.
Proof.
  intros Hk. unfold fromEntries.
  rewrite defineAll_app. change (defineAll ((k, v) :: l2) ?o)
    with (defineAll l2 (<[k := v]> o)).
  rewrite defineAll_lookup_fresh; [|done]. apply lookup_insert_eq.
Qed.

Lemma fromEntries_lookup_Some (l : list (string * V)) (k : string) (v : V) :
  fromEntries l !! k = Some v -> (k, v) ∈ l.
Proof.
  intros Hk. apply (defineAll_lookup_Some l ∅) in Hk as [Hk|Hk]; [|done].
  by rewrite lookup_empty in Hk.
Qed.

Lemma fromEntries_dom (l : list (string * V)) :
  dom (fromEntries l) = list_to_set l.*1.
Proof.
  unfold fromEntries. rewrite defineAll_dom, dom_empty_L.
  apply (left_id_L ∅ (∪)).
Qed.

(** The number of properties is the number of distinct keys. *)
Lemma fromEntries_size (l : list (string * V)) :
  size (fromEntries l) = length (remove_dups l.*1).
Proof.
  rewrite <- size_dom, fromEntries_dom.
  rewrite <- (size_list_to_set (C := gset string) (remove_dups l.*1))
    by apply NoDup_remove_dups.
  f_equal. apply set_eq. intros k.
  by rewrite !elem_of_list_to_set, elem_of_remove_dups.
Qed.

End RuntimeProperties.

(* ===================================================================== *)
(** * Building the Library                                                 *)
(* ===================================================================== *)

Section LibraryProperties.
Import JS Types Main.
Context `{E : Exports}.

Lemma newLibrary_Normal (format : DatabaseType) (records : list EntryData)
      (lib : Library Entry) :
  newLibrary format records = Normal lib ->
  ∃ pairs, Forall2 (paired format) records pairs
           ∧ lib = new_Library (fromEntries pairs).
Proof.
  unfold newLibrary. intros Hlib.
  destruct (array_map _ records) as [pairs|e] eqn:Hmap; simpl in Hlib;
    [|discriminate].
  injection Hlib as <-. exists pairs. split; [|done].
  apply array_map_Normal in Hmap.
  eapply Forall2_impl; [exact Hmap|]. intros e [k a] Hka. simpl in Hka.
  destruct (adapter format e) as [a'|] eqn:Ha; simpl in Hka; [|discriminate].
  injection Hka as <- <-. by split.
Qed.

Lemma newLibrary_total (format : DatabaseType) (records : list EntryData) :
  Forall (fun e => ∃ a, adapter format e = Normal a) records ->
  ∃ lib, newLibrary format records = Normal lib.
Proof.
  intros Hall. unfold newLibrary.
  destruct (array_map_total
              (fun e => bind (adapter format e)
                             (fun a => Normal (citekey format e, a)))
              records) as [pairs ->]; [|by eexists].
  eapply Forall_impl; [exact Hall|]. intros e [a ->]. by eexists.
Qed.

Lemma paired_keys (format : DatabaseType) (records : list EntryData)
      (pairs : list (string * Entry)) :
  Forall2 (paired format) records pairs ->
  pairs.*1 = citekey format <$> records.
Proof.
  induction 1 as [|e kv records pairs [Hk _] _ IH]; [done|].
  rewrite !fmap_cons. by rewrite Hk, IH.
Qed.

(** C1. When every record of a batch adapts, the build step yields a
    Library in which each citekey maps to the entry adapted from the last
    record of the batch that carries this citekey, and whose size is the
    number of distinct citekeys of the batch. *)
Theorem newLibrary_last_write_wins (format : DatabaseType)
        (records : list EntryData) :
  Forall (fun e => ∃ a, adapter format e = Normal a) records ->
  ∃ lib,
    newLibrary format records = Normal lib
    ∧ (∀ earlier e later a,
          records = earlier ++ e :: later ->
          Forall (fun e' => citekey format e' ≠ citekey format e) later ->
          adapter format e = Normal a ->
          entries lib !! citekey format e = Some a)
    ∧ Library_size lib = length (remove_dups (citekey format <$> records)).
Proof.
  intros Hall. destruct (newLibrary_total format records Hall) as [lib Hlib].
  exists lib. split; [exact Hlib|].
  apply newLibrary_Normal in Hlib as (pairs & Hpairs & ->).
  split.
  - intros earlier e later a -> Hlater Ha.
    apply Forall2_app_inv_l in Hpairs as (p1 & p2' & _ & Hp2 & ->).
    apply Forall2_cons_inv_l in Hp2 as ([k a'] & p2 & [Hk Ha'] & Hp2 & ->).
    simpl in Hk, Ha'. subst k. rewrite Ha in Ha'. injection Ha' as <-.
    simpl. apply fromEntries_last.
    rewrite (paired_keys format later p2 Hp2).
    intros Hin. apply list_elem_of_fmap in Hin as (e' & Heq & He').
    rewrite Forall_forall in Hlater. by apply (Hlater e' He').
  - unfold Library_size. simpl.
    by rewrite fromEntries_size, (paired_keys format records pairs Hpairs).
Qed.

(** C5. When every record of a batch adapts, the Library files each record
    under the value of its field [key] for the biblatex format and under
    the value of its field [id] for the csl-json format, and holds nothing
    under any other name. *)
Theorem citekey_is_format_field (format : DatabaseType)
        (records : list EntryData) :
  Forall (fun e => ∃ a, adapter format e = Normal a) records ->
  let keyField := match format with biblatex => "key" | csl_json => "id" end in
  ∃ lib,
    newLibrary format records = Normal lib
    ∧ (∀ e, e ∈ records ->
            is_Some (entries lib !! ToPropertyKey (index e keyField)))
    ∧ (∀ k a, entries lib !! k = Some a ->
              ∃ e, e ∈ records ∧ k = ToPropertyKey (index e keyField)
                   ∧ adapter format e = Normal a).
Proof.
  intros Hall keyField.
  assert (Hkey : ∀ e, citekey format e = ToPropertyKey (index e keyField))
    by (intros e; unfold citekey, keyField; by destruct format).
  destruct (newLibrary_total format records Hall) as [lib Hlib].
  exists lib. split; [exact Hlib|].
  apply newLibrary_Normal in Hlib as (pairs & Hpairs & ->). simpl.
  split.
  - intros e He. apply elem_of_dom. rewrite fromEntries_dom.
    apply elem_of_list_to_set.
    rewrite (paired_keys format records pairs Hpairs), <- Hkey.
    by apply list_elem_of_fmap_2.
  - intros k a Hk. apply fromEntries_lookup_Some in Hk.
    apply list_elem_of_lookup in Hk as [i Hi].
    destruct (Forall2_lookup_r _ _ _ _ _ Hpairs Hi) as (e & He & Hk & Ha).
    simpl in Hk, Ha. exists e. split; [by eapply list_elem_of_lookup_2|].
    by rewrite <- Hkey.
Qed.

End LibraryProperties.

(* ===================================================================== *)
(** * Path resolution                                                      *)
(* ===================================================================== *)

Section PathProperties.
Import JS.

Lemma split_cons (path : string) : ∃ seg segs, Path.split path = seg :: segs.
Proof.
  induction path as [|c rest (seg & segs & IH)]; simpl; [by eauto|].
  destruct (decide (c = "/"%char)); [by eauto|]. rewrite IH. by eauto.
Qed.

(** Splitting commutes with gluing two paths by a slash. *)
Lemma split_glue (a b : string) :
  Path.split (a ++ "/" ++ b)%string = Path.split a ++ Path.split b.
Proof.
  induction a as [|c a IH]; simpl; [done|].
  destruct (decide (c = "/"%char)); [by rewrite IH|].
  rewrite IH. by destruct (split_cons a) as (seg & segs & ->).
Qed.

Lemma join_cons_char (c : ascii) (seg : string) (segs : list string) :
  Path.join (String c seg :: segs) = String c (Path.join (seg :: segs)).
Proof. by destruct segs. Qed.

Lemma join_split (path : string) : Path.join (Path.split path) = path.
Proof.
  induction path as [|c rest IH]; simpl; [done|].
  destruct (split_cons rest) as (seg & segs & Hrest). rewrite Hrest in *.
  destruct (decide (c = "/"%char)) as [->|_].
  - change (Path.join ("" :: seg :: segs))
      with ("/" ++ Path.join (seg :: segs))%string.
    by rewrite IH.
  - by rewrite join_cons_char, IH.
Qed.

Lemma normalizeSegment_empty (allowAboveRoot : bool) (res : list string) :
  Path.normalizeSegment allowAboveRoot res "" = res.
Proof. unfold Path.normalizeSegment. rewrite decide_True; [done|by left]. Qed.

(** Empty segments in front or at the end do not count. *)
Lemma normalizeSegments_leading (allowAboveRoot : bool) (segs : list string) :
  Path.normalizeSegments allowAboveRoot ("" :: segs)
  = Path.normalizeSegments allowAboveRoot segs.
Proof.
  unfold Path.normalizeSegments. simpl. by rewrite normalizeSegment_empty.
Qed.

Lemma normalizeSegments_trailing (allowAboveRoot : bool) (segs : list string) :
  Path.normalizeSegments allowAboveRoot (segs ++ [""])
  = Path.normalizeSegments allowAboveRoot segs.
Proof.
  unfold Path.normalizeSegments. rewrite fold_left_app. simpl.
  by rewrite normalizeSegment_empty.
Qed.

Lemma normalizeString_trailing (path : string) (allowAboveRoot : bool) :
  Path.normalizeString (path ++ "/" ++ "")%string allowAboveRoot
  = Path.normalizeString path allowAboveRoot.
Proof.
  unfold Path.normalizeString.
  by rewrite split_glue, normalizeSegments_trailing.
Qed.

(** Segments that are neither empty, [.] nor [..] are all kept. *)
Lemma normalizeSegment_normal (allowAboveRoot : bool) (segs res : list string) :
  forallb Path.isNormalSegment segs = true ->
  fold_left (Path.normalizeSegment allowAboveRoot) segs res = rev segs ++ res.
Proof.
  revert res. induction segs as [|seg segs IH]; intros res Hall; [done|].
  simpl in Hall. apply andb_prop in Hall as [Hseg Hall].
  simpl. rewrite IH by done. rewrite <- app_assoc. simpl. f_equal.
  unfold Path.isNormalSegment in Hseg.
  destruct (decide (seg = "" ∨ seg = "." ∨ seg = "..")) as [|Hn];
    [discriminate|].
  unfold Path.normalizeSegment.
  rewrite decide_False by (intros [?|?]; apply Hn; auto).
  rewrite decide_False by (intros ?; apply Hn; auto). done.
Qed.

Lemma normalizeSegments_normal (allowAboveRoot : bool) (segs : list string) :
  forallb Path.isNormalSegment segs = true ->
  Path.normalizeSegments allowAboveRoot segs = segs.
Proof.
  intros Hall. unfold Path.normalizeSegments.
  rewrite normalizeSegment_normal by done.
  by rewrite app_nil_r, rev_involutive.
Qed.

Lemma isAbsolute_inv (path : string) :
  Path.isAbsolute path = true -> ∃ rest, path = String "/" rest.
Proof.
  destruct path as [|c rest]; simpl; [discriminate|].
  destruct (decide (c = "/"%char)) as [->|]; [by eauto|discriminate].
Qed.

(** [path.resolve(root, rawPath)] for an absolute [rawPath]: the earlier
    arguments are never looked at. *)
Lemma resolve_absolute (cwd root rawPath : string) :
  Path.isAbsolute rawPath = true ->
  Path.resolve cwd [root; rawPath]
  = ("/" ++ Path.normalizeString rawPath false)%string.
Proof.
  intros Habs. unfold Path.resolve. simpl rev. simpl app.
  destruct (isAbsolute_inv rawPath Habs) as [rest ->].
  cbn [Path.resolveLoop truthy]. rewrite Habs. cbn [negb].
  by rewrite normalizeString_trailing.
Qed.

Lemma normalizeString_normalized (path : string) :
  Path.isNormalized path = true ->
  ("/" ++ Path.normalizeString path false)%string = path.
Proof.
  destruct path as [|c rest]; simpl; [discriminate|].
  destruct (decide (c = "/"%char)) as [->|]; [|discriminate]. simpl.
  intros Hrest. f_equal. unfold Path.normalizeString. simpl.
  rewrite normalizeSegments_leading.
  destruct (decide (rest = "")) as [->|_]; [done|].
  by rewrite normalizeSegments_normal, join_split.
Qed.

(** [path.resolve(root, rawPath)] for a relative [rawPath] and an absolute
    [root]: the working directory is never looked at. *)
Lemma resolve_relative (cwd root rawPath : string) :
  Path.isAbsolute rawPath = false ->
  Path.isAbsolute root = true ->
  Path.resolve cwd [root; rawPath]
  = ("/" ++ Path.normalizeString (root ++ "/" ++ rawPath) false)%string.
Proof.
  intros Hrel Habs. unfold Path.resolve. simpl rev. simpl app.
  destruct (isAbsolute_inv root Habs) as [rest ->].
  destruct rawPath as [|c raw].
  - cbn [Path.resolveLoop truthy]. rewrite Habs. cbn [negb]. done.
  - cbn [Path.resolveLoop truthy]. rewrite Hrel.
    cbn [Path.resolveLoop truthy]. rewrite Habs. cbn [negb].
    f_equal. unfold Path.normalizeString.
    rewrite !split_glue, app_assoc, normalizeSegments_trailing.
    by rewrite <- split_glue.
Qed.

End PathProperties.

(* ===================================================================== *)
(** * The plugin                                                           *)
(* ===================================================================== *)

Section PluginProperties.
Import JS Util Types Main.
Context {E : Exports} {P : Platform}.

Ltac run_statement :=
  unfold tryBlock, catchBlock, loadErrorNotifier_show, try_catch, bindM, eval,
    read, console_log, ret in *.

(** A [try] block that returns has read, decoded, parsed and built the
    Library it returns, and has found [this.library] set. *)
Lemma tryBlock_Normal (settled : Completion (list Byte.byte)) (w w' : World)
      (result : option (Library Entry)) :
  tryBlock settled w = (Normal result, w') ->
  ∃ buffer value records lib current,
    settled = Normal buffer
    ∧ decode buffer = Normal value
    ∧ loadEntries value (citationExportFormat (settings w)) = Normal records
    ∧ newLibrary (citationExportFormat (settings w)) records = Normal lib
    ∧ library w = Some current
    ∧ result = Some lib.
Proof.
  run_statement.
  destruct settled as [buffer|]; [|discriminate].
  destruct (decode buffer) as [value|] eqn:Hvalue; [|discriminate].
  destruct (loadEntries value _) as [records|] eqn:Hrecords; [|discriminate].
  destruct (newLibrary _ records) as [lib|] eqn:Hlib; [|discriminate].
  destruct (library w) as [current|] eqn:Hcurrent; [|discriminate].
  simpl. intros [= <- <-]. by exists buffer, value, records, lib, current.
Qed.

(** A [try] block that throws has changed nothing. *)
Lemma tryBlock_Throw (settled : Completion (list Byte.byte)) (w w' : World)
      (e : Exception) :
  tryBlock settled w = (Throw e, w') -> w' = w.
Proof.
  run_statement.
  destruct settled as [buffer|]; [|by intros [= _ <-]].
  destruct (decode buffer) as [value|]; [|by intros [= _ <-]].
  destruct (loadEntries value _) as [records|]; [|by intros [= _ <-]].
  destruct (newLibrary _ records) as [lib|]; [|by intros [= _ <-]].
  destruct (library w) as [current|]; [discriminate|by intros [= _ <-]].
Qed.

(** Each stage that fails makes the [try] block throw: the read, the
    decoding, the parser, an adapter, and the read of [this.library.size]
    when no Library is set.  (The decoder of the platform itself never
    throws, see [TextDecoder.decode]; the lemma on the decoding is for a
    decoder that can.) *)
Lemma tryBlock_read_fails (w : World) (e : Exception) :
  (tryBlock (Throw e) w).1 = Throw e.
Proof. reflexivity. Qed.

Lemma tryBlock_decode_fails (w : World) (buffer : list Byte.byte)
      (e : Exception) :
  decode buffer = Throw e -> (tryBlock (Normal buffer) w).1 = Throw e.
Proof. intros Hd. run_statement. by rewrite Hd. Qed.

Lemma tryBlock_parse_fails (w : World) (buffer : list Byte.byte)
      (value : string) (e : Exception) :
  decode buffer = Normal value ->
  loadEntries value (citationExportFormat (settings w)) = Throw e ->
  (tryBlock (Normal buffer) w).1 = Throw e.
Proof. intros H1 H2. run_statement. by rewrite H1, H2. Qed.

Lemma tryBlock_adapt_fails (w : World) (buffer : list Byte.byte)
      (value : string) (records : list EntryData) (e : Exception) :
  decode buffer = Normal value ->
  loadEntries value (citationExportFormat (settings w)) = Normal records ->
  newLibrary (citationExportFormat (settings w)) records = Throw e ->
  (tryBlock (Normal buffer) w).1 = Throw e.
Proof. intros H1 H2 H3. run_statement. by rewrite H1, H2, H3. Qed.

Lemma tryBlock_unset_library (w : World) (settled : Completion (list Byte.byte)) :
  library w = None -> ∃ e, (tryBlock settled w).1 = Throw e.
Proof.
  intros Hnone. run_statement.
  destruct settled as [buffer|]; [|by eexists].
  destruct (decode buffer) as [value|]; [|by eexists].
  destruct (loadEntries value _) as [records|]; [|by eexists].
  destruct (newLibrary _ records) as [lib|]; [|by eexists].
  rewrite Hnone. by eexists.
Qed.

(** After a throwing [try] block, [loadLibrary] logs the error, calls
    [show()] once and returns [null]. *)
Lemma loadLibrary_resume_failure (settled : Completion (list Byte.byte))
      (w : World) (e : Exception) :
  (tryBlock settled w).1 = Throw e ->
  loadLibrary_resume settled w
  = (Normal None,
     set_loadErrorNotifier (shown w).1 (shown w).2 (log (console_error e) w)).
Proof.
  intros Hthrow. unfold loadLibrary_resume, try_catch.
  destruct (tryBlock settled w) as [[r|e'] w'] eqn:Htry; simpl in Hthrow;
    [discriminate|].
  injection Hthrow as ->. apply tryBlock_Throw in Htry as ->.
  unfold shown. run_statement. simpl.
  by destruct (show None (loadErrorNotifier w) (host w)) as [[r nt] h].
Qed.

(** [loadLibrary] never throws once its read has settled. *)
Lemma loadLibrary_resume_returns (settled : Completion (list Byte.byte))
      (w : World) :
  ∃ result w', loadLibrary_resume settled w = (Normal result, w').
Proof.
  destruct (tryBlock settled w) as [[r|e] w'] eqn:Htry.
  - exists r, w'. unfold loadLibrary_resume, try_catch. by rewrite Htry.
  - eexists _, _. apply loadLibrary_resume_failure. by rewrite Htry.
Qed.

Lemma loadLibrary_resume_success (settled : Completion (list Byte.byte))
      (w w' : World) (lib : Library Entry) :
  loadLibrary_resume settled w = (Normal (Some lib), w') ->
  ∃ buffer value records,
    settled = Normal buffer
    ∧ decode buffer = Normal value
    ∧ loadEntries value (citationExportFormat (settings w)) = Normal records
    ∧ newLibrary (citationExportFormat (settings w)) records = Normal lib.
Proof.
  intros Hres. destruct (tryBlock settled w) as [[r|e] w1] eqn:Htry.
  - unfold loadLibrary_resume, try_catch in Hres. rewrite Htry in Hres.
    injection Hres as -> ->.
    apply tryBlock_Normal in Htry
      as (buffer & value & records & lib' & _ & ? & ? & ? & ? & _ & [= <-]).
    by exists buffer, value, records.
  - rewrite (loadLibrary_resume_failure settled w e) in Hres
      by (by rewrite Htry).
    discriminate.
Qed.

Lemma loadLibrary_set_path (w : World) :
  truthy (citationExportPath (settings w)) = true ->
  loadLibrary w
  = loadLibrary_resume
      (readLocalFile w (resolveLibraryPath w (citationExportPath (settings w))))
      (log (console_debug "Citation plugin: Reloading library") w).
Proof.
  intros Hpath. unfold loadLibrary, loadLibrary_start. run_statement.
  simpl. by rewrite Hpath.
Qed.

Lemma loadLibrary_unset_path (w : World) :
  truthy (citationExportPath (settings w)) = false ->
  loadLibrary w
  = (Normal None,
     log (console_warn
            "Citations plugin: citation export path is not set. Please update plugin settings.")
         (log (console_debug "Citation plugin: Reloading library") w)).
Proof.
  intros Hpath. unfold loadLibrary, loadLibrary_start. run_statement.
  simpl. by rewrite Hpath.
Qed.

Lemma show_displayed (message : option string) (nt : Notifier) (h : Host) :
  displayed (show message nt h).2
  = match currentNotice nt with
    | Some _ => displayed h
    | None =>
        displayed h
        ++ [mkNotice (nextNoticeId h)
              (match message with
               | Some m => if truthy m then m else defaultMessage nt
               | None => defaultMessage nt
               end)]
    end.
Proof. unfold show. by destruct (currentNotice nt). Qed.

Lemma shown_displayed (w : World) :
  displayed (shown w).2
  = match currentNotice (loadErrorNotifier w) with
    | Some _ => displayed (host w)
    | None =>
        displayed (host w)
        ++ [mkNotice (nextNoticeId (host w))
                     (defaultMessage (loadErrorNotifier w))]
    end.
Proof.
  rewrite <- (show_displayed None). unfold shown.
  by destruct (show None (loadErrorNotifier w) (host w)) as [[r nt] h].
Qed.

(** What a failed load leaves behind. *)
Lemma loadLibrary_failure (w : World) (e : Exception) :
  truthy (citationExportPath (settings w)) = true ->
  (tryBlock
     (readLocalFile w (resolveLibraryPath w (citationExportPath (settings w))))
     (log (console_debug "Citation plugin: Reloading library") w)).1
  = Throw e ->
  loadLibrary w
  = (Normal None,
     set_loadErrorNotifier (shown w).1 (shown w).2
       (log (console_error e)
            (log (console_debug "Citation plugin: Reloading library") w))).
Proof.
  intros Hpath Hthrow. rewrite loadLibrary_set_path by done.
  by rewrite (loadLibrary_resume_failure _ _ e Hthrow).
Qed.



(** C9. When the export path is unset, [loadLibrary] returns [null] and
    only writes to the console (the reload message and the warning): the
    notifiers, the display and [this.library] are as they were.  A failed
    load with the path set, by contrast, puts up a notice when none is on
    display. *)
Theorem loadLibrary_unset_path_silent (w : World) :
  citationExportPath (settings w) = "" ->
  (∃ w',
      loadLibrary w = (Normal None, w')
      ∧ loadErrorNotifier w' = loadErrorNotifier w
      ∧ literatureNoteErrorNotifier w' = literatureNoteErrorNotifier w
      ∧ host w' = host w
      ∧ library w' = library w
      ∧ console w'
        = console w
          ++ [console_debug "Citation plugin: Reloading library";
              console_warn
                "Citations plugin: citation export path is not set. Please update plugin settings."])
  ∧ (∀ (v : World) (e : Exception),
        truthy (citationExportPath (settings v)) = true ->
        (tryBlock
           (readLocalFile v
              (resolveLibraryPath v (citationExportPath (settings v))))
           (log (console_debug "Citation plugin: Reloading library") v)).1
        = Throw e ->
        currentNotice (loadErrorNotifier v) = None ->
        ∃ v',
          loadLibrary v = (Normal None, v')
          ∧ displayed (host v')
            = displayed (host v)
              ++ [mkNotice (nextNoticeId (host v))
                           (defaultMessage (loadErrorNotifier v))]).
Proof.
  intros Hpath. split.
  - eexists. split.
    + apply loadLibrary_unset_path. by rewrite Hpath.
    + simpl. repeat split. by rewrite <- app_assoc.
  - intros v e Hset Hthrow Hnone. eexists.
    split; [by apply loadLibrary_failure|].
    simpl. by rewrite shown_displayed, Hnone.
Qed.

(** C7. Two loads that succeed on the same file content under the same
    export format return Libraries with the same keys and, under each key,
    the same entry. *)
Theorem loadLibrary_deterministic (w1 w2 w1' w2' : World)
        (buffer : list Byte.byte) (L1 L2 : Library Entry) :
  citationExportFormat (settings w1) = citationExportFormat (settings w2) ->
  readLocalFile w1 (resolveLibraryPath w1 (citationExportPath (settings w1)))
  = Normal buffer ->
  readLocalFile w2 (resolveLibraryPath w2 (citationExportPath (settings w2)))
  = Normal buffer ->
  loadLibrary w1 = (Normal (Some L1), w1') ->
  loadLibrary w2 = (Normal (Some L2), w2') ->
  dom (entries L1) = dom (entries L2)
  ∧ ∀ k, entries L1 !! k = entries L2 !! k.
Proof.
  intros Hformat Hread1 Hread2 Hload1 Hload2.
  assert (Hset : ∀ (w w' : World) (L : Library Entry),
             loadLibrary w = (Normal (Some L), w') ->
             truthy (citationExportPath (settings w)) = true).
  { intros w w' L Hload.
    destruct (truthy (citationExportPath (settings w))) eqn:Hpath; [done|].
    rewrite loadLibrary_unset_path in Hload by done. discriminate. }
  rewrite loadLibrary_set_path, Hread1 in Hload1 by eauto.
  rewrite loadLibrary_set_path, Hread2 in Hload2 by eauto.
  apply loadLibrary_resume_success in Hload1
    as (b1 & value1 & records1 & [= <-] & Hvalue1 & Hrecords1 & Hlib1).
  apply loadLibrary_resume_success in Hload2
    as (b2 & value2 & records2 & [= <-] & Hvalue2 & Hrecords2 & Hlib2).
  simpl in *. rewrite Hvalue1 in Hvalue2. injection Hvalue2 as <-.
  rewrite Hformat, Hrecords2 in Hrecords1. injection Hrecords1 as <-.
  rewrite Hformat, Hlib2 in Hlib1. injection Hlib1 as <-. done.
Qed.

(** While [this.library] is unset, the read of [this.library.size] sends
    every load to the [catch] block: the load returns [null], and so
    [this.library] stays unset however many loads run. *)
Lemma loadLibrary_resume_unset_library (settled : Completion (list Byte.byte))
      (w : World) :
  library w = None ->
  ∃ w', loadLibrary_resume settled w = (Normal None, w') ∧ library w' = None.
Proof.
  intros Hnone. destruct (tryBlock_unset_library w settled Hnone) as [e He].
  eexists. split; [exact (loadLibrary_resume_failure settled w e He)|done].
Qed.

Lemma dispatch_unset_library (d : Dispatch) (s : Loop) :
  library (world s) = None -> library (world (dispatch d s)) = None.
Proof.
  intros Hnone. destruct d as [src|load settled]; simpl.
  - unfold loadLibrary_start. run_statement. simpl.
    by destruct (truthy (citationExportPath (settings (world s)))).
  - destruct (inFlight s !! load); [|done].
    destruct (loadLibrary_resume_unset_library settled (world s) Hnone)
      as (w' & -> & _). done.
Qed.

Lemma dispatchAll_unset_library (ds : list Dispatch) (s : Loop) :
  library (world s) = None -> library (world (dispatchAll ds s)) = None.
Proof.
  revert s. induction ds as [|d ds IH]; intros s Hnone; [done|].
  simpl. apply IH. by apply dispatch_unset_library.
Qed.

(** When the read of a load in flight settles, the load runs to its return
    and its result becomes [this.library]; the other loads stay in
    flight. *)
Lemma dispatch_ReadSettled (s : Loop) (load : nat) (p : Pending)
      (settled : Completion (list Byte.byte)) :
  inFlight s !! load = Some p ->
  (loadLibrary_resume settled (world s)).1
  = Normal (library (world (dispatch (ReadSettled load settled) s)))
  ∧ inFlight (dispatch (ReadSettled load settled) s) = delete load (inFlight s).
Proof.
  intros Hp. simpl. rewrite Hp.
  destruct (loadLibrary_resume_returns settled (world s)) as (r & w' & ->).
  by split.
Qed.

(** C8. With a manual refresh and a watcher-triggered load both in flight,
    whichever order their reads settle in, [this.library] ends up holding
    the value returned by the load that finished last; which of the two
    was triggered first plays no part. *)
Theorem last_completion_wins (s : Loop) (manual watcher : nat)
        (pm pw : Pending) (rm rw : Completion (list Byte.byte)) :
  inFlight s !! manual = Some pm -> source pm = ManualRefresh ->
  inFlight s !! watcher = Some pw -> source pw = WatcherChange ->
  (let s1 := dispatch (ReadSettled manual rm) s in
   let s2 := dispatch (ReadSettled watcher rw) s1 in
   (loadLibrary_resume rw (world s1)).1 = Normal (library (world s2)))
  ∧ (let s1 := dispatch (ReadSettled watcher rw) s in
     let s2 := dispatch (ReadSettled manual rm) s1 in
     (loadLibrary_resume rm (world s1)).1 = Normal (library (world s2))).
Proof.
  intros Hm Hsm Hw Hsw.
  assert (Hne : manual ≠ watcher) by (intros ->; congruence).
  split; intros s1 s2.
  - destruct (dispatch_ReadSettled s manual pm rm Hm) as [_ Hrest].
    apply (dispatch_ReadSettled s1 watcher pw rw).
    subst s1. rewrite Hrest. by rewrite lookup_delete_ne.
  - destruct (dispatch_ReadSettled s watcher pw rw Hw) as [_ Hrest].
    apply (dispatch_ReadSettled s1 manual pm rm).
    subst s1. rewrite Hrest. by rewrite lookup_delete_ne.
Qed.

Lemma chars_replace_class (cls : ascii -> bool) (r : ascii) (s : string) :
  chars (replace_class cls r s)
  = (fun c => if cls c then r else c) <$> chars s.
Proof. induction s as [|c s IH]; simpl; [done|]. by rewrite IH. Qed.

Lemma underscore_allowed : DISALLOWED_FILENAME_CHARACTERS_RE "_" = false.
Proof. reflexivity. Qed.

(** C10. When the title template compiles, the template variables of the
    citekey exist and the template renders, [getTitleForCitekey] returns
    the rendered text with every disallowed character replaced by an
    underscore and every other character kept; the title holds none of the
    disallowed characters. *)
Theorem getTitleForCitekey_sanitized (w : World) (citekey : string)
        (lib : Library Entry) (variables : TemplateVariables)
        (template : TemplateVariables -> Completion string)
        (unsafeTitle : string) :
  library w = Some lib ->
  getTemplateVariablesForCitekey lib citekey = Normal variables ->
  compileTemplate (literatureNoteTitleTemplate (settings w)) templateSettings
  = Normal template ->
  template variables = Normal unsafeTitle ->
  ∃ title,
    getTitleForCitekey w citekey = Normal title
    ∧ chars title
      = (fun c => if decide (c ∈ DISALLOWED_FILENAME_CHARACTERS)
                  then "_"%char else c) <$> chars unsafeTitle
    ∧ ∀ c, c ∈ DISALLOWED_FILENAME_CHARACTERS -> c ∉ chars title.
Proof.
  intros Hlib Hvars Htemplate Hrender. eexists. split.
  { unfold getTitleForCitekey. rewrite Htemplate. simpl.
    rewrite Hlib, Hvars. simpl. by rewrite Hrender. }
  rewrite chars_replace_class. split.
  - apply list_fmap_ext. intros _ c _.
    unfold DISALLOWED_FILENAME_CHARACTERS_RE. by case_decide.
  - intros c Hc Hin. apply list_elem_of_fmap in Hin as (c' & Heq & _).
    pose proof underscore_allowed as Hu.
    unfold DISALLOWED_FILENAME_CHARACTERS_RE in Heq, Hu.
    destruct (decide (c' ∈ DISALLOWED_FILENAME_CHARACTERS)); subst c.
    + by destruct (decide ("_"%char ∈ DISALLOWED_FILENAME_CHARACTERS)).
    + done.
Qed.

(** C6, as amended. A relative path is resolved against the vault root.
    An absolute path is resolved on its own, whatever the vault root: the
    result is the path normalised, and it is the path itself when the path
    is already in normal form. *)
Theorem resolveLibraryPath_resolves (w : World) (rawPath : string) :
  (Path.isAbsolute rawPath = false ->
   Path.isAbsolute (vaultRoot w) = true ->
   resolveLibraryPath w rawPath
   = ("/" ++ Path.normalizeString (vaultRoot w ++ "/" ++ rawPath) false)%string)
  ∧ (Path.isAbsolute rawPath = true ->
     resolveLibraryPath w rawPath
     = ("/" ++ Path.normalizeString rawPath false)%string
     ∧ (Path.isNormalized rawPath = true ->
        resolveLibraryPath w rawPath = rawPath)).
Proof.
  unfold resolveLibraryPath. split.
  - intros Hrel Habs. by apply resolve_relative.
  - intros Habs. rewrite resolve_absolute by done. split; [done|].
    apply normalizeString_normalized.
Qed.

End PluginProperties.

(* ===================================================================== *)
(** * The theorems at work on the small instance                           *)
(* ===================================================================== *)

Section Instances.
Import JS Util Types Main.

(** [path.resolve] on a few inputs. *)
Example resolve_relative_example :
  Path.resolve "/home/user" ["/vault"; "refs/lib.bib"] = "/vault/refs/lib.bib".
Proof. reflexivity. Qed.

Example resolve_dots_example :
  Path.resolve "/home/user" ["/vault/"; "../a//b/./c/"] = "/a/b/c".
Proof. reflexivity. Qed.

Example resolve_cwd_example :
  Path.resolve "/home/user" ["vault"; ""] = "/home/user/vault".
Proof. reflexivity. Qed.

(** The first [show()] puts the notice up and runs to the end of the
    method's body, so its result is [undefined]; the second is turned
    down with [false]. *)
Example show_twice_example :
  let '(first, nt, h) := show None (new_Notifier "Unable") (mkHost [] 0) in
  first = None
  ∧ displayed h = [mkNotice 0 "Unable"]
  ∧ show None nt h = (Some false, nt, h).
Proof. by repeat split. Qed.

(** A plugin fresh from its constructor reads a well-formed export file and
    still returns [null] with a notice: [this.library] is not set when the
    [try] block reads its size. *)
Example first_load_example :
  ∃ w',
    loadLibrary (Demo.fresh "refs.json" csl_json) = (Normal None, w')
    ∧ console w'
      = [console_debug "Citation plugin: Reloading library";
         console_error
           (TypeError "Cannot read properties of undefined (reading 'size')")]
    ∧ length (displayed (host w')) = 1.
Proof. eexists. by repeat split. Qed.

(** Three records, the first and the last with the citekey [a]: the
    Library has two entries and [a] is the entry of the last record. *)
Lemma newLibrary_last_write_wins_witness :
  ∃ lib,
    newLibrary (E := Demo.exports) csl_json (Demo.records 0 (chars "aba"))
    = Normal lib
    ∧ entries lib !! "a"
      = Some [("format", "csl-json"); ("id", "a"); ("key", "a"); ("pos", "2")]
    ∧ Library_size lib = 2.
Proof.
  destruct (newLibrary_last_write_wins (E := Demo.exports) csl_json
              (Demo.records 0 (chars "aba")))
    as (lib & Hlib & Hlast & Hsize).
  - repeat constructor; eexists; reflexivity.
  - exists lib. split; [exact Hlib|]. split; [|exact Hsize].
    apply (Hlast (Demo.records 0 (chars "ab"))
                 [("id", "a"); ("key", "a"); ("pos", "2")] []).
    + reflexivity.
    + constructor.
    + reflexivity.
Defined.

Lemma citekey_is_format_field_witness :
  ∃ lib,
    newLibrary (E := Demo.exports) biblatex
      [[("key", "knuth84"); ("id", "1")]; [("title", "Untitled")]]
    = Normal lib
    ∧ is_Some (entries lib !! "knuth84")
    ∧ is_Some (entries lib !! "undefined")
    ∧ entries lib !! "1" = None.
Proof.
  destruct (citekey_is_format_field (E := Demo.exports) biblatex
              [[("key", "knuth84"); ("id", "1")]; [("title", "Untitled")]])
    as (lib & Hlib & Hin & Hout).
  - repeat constructor; eexists; reflexivity.
  - exists lib. split; [exact Hlib|].
    split; [apply (Hin [("key", "knuth84"); ("id", "1")]), list_elem_of_here|].
    split; [apply (Hin [("title", "Untitled")]);
            apply list_elem_of_further, list_elem_of_here|].
    destruct (entries lib !! "1") as [a|] eqn:Ha; [|reflexivity].
    destruct (Hout "1" a Ha) as (e & He & Hk & _).
    apply elem_of_cons in He as [->|He]; [discriminate Hk|].
    apply elem_of_cons in He as [->|He]; [discriminate Hk|].
    by apply elem_of_nil in He.
Defined.



Lemma loadLibrary_unset_path_silent_witness :
  ∃ w',
    loadLibrary (Demo.fresh "" csl_json) = (Normal None, w')
    ∧ displayed (host w') = []
    ∧ currentNotice (loadErrorNotifier w') = None.
Proof.
  destruct (loadLibrary_unset_path_silent (Demo.fresh "" csl_json))
    as [(w' & Hload & Hnotifier & _ & Hhost & _) _].
  - reflexivity.
  - exists w'. split; [exact Hload|].
    split; [by rewrite Hhost|by rewrite Hnotifier].
Defined.

(** The same content reached through a relative and through an absolute
    export path. *)
Lemma loadLibrary_deterministic_witness :
  ∃ L1 L2 w1' w2',
    loadLibrary (Demo.loaded "refs.json" csl_json) = (Normal (Some L1), w1')
    ∧ loadLibrary (Demo.loaded "/vault/refs.json" csl_json)
      = (Normal (Some L2), w2')
    ∧ dom (entries L1) = dom (entries L2)
    ∧ ∀ k, entries L1 !! k = entries L2 !! k.
Proof.
  eexists _, _, _, _. split; [reflexivity|]. split; [reflexivity|].
  eapply (loadLibrary_deterministic
            (Demo.loaded "refs.json" csl_json)
            (Demo.loaded "/vault/refs.json" csl_json) _ _
            (list_byte_of_string "ab a")); reflexivity.
Defined.

(** The watcher's load, triggered first, finishes last and decides the
    Library, and the other way round. *)
Lemma last_completion_wins_witness :
  let rm := Normal (list_byte_of_string "xy") in
  let rw := Normal (list_byte_of_string "q") in
  (let s1 := dispatch (ReadSettled 1 rm) Demo.twoInFlight in
   let s2 := dispatch (ReadSettled 0 rw) s1 in
   (loadLibrary_resume rw (world s1)).1 = Normal (library (world s2))
   ∧ (Library_size <$> library (world s2)) = Some 1)
  ∧ (let s1 := dispatch (ReadSettled 0 rw) Demo.twoInFlight in
     let s2 := dispatch (ReadSettled 1 rm) s1 in
     (loadLibrary_resume rm (world s1)).1 = Normal (library (world s2))
     ∧ (Library_size <$> library (world s2)) = Some 2).
Proof.
  intros rm rw.
  destruct (last_completion_wins Demo.twoInFlight 1 0
              (mkPending ManualRefresh "/vault/refs.json")
              (mkPending WatcherChange "/vault/refs.json") rm rw)
    as [Hwatcher Hmanual]; try reflexivity.
  split; (split; [assumption|reflexivity]).
Defined.

Lemma getTitleForCitekey_sanitized_witness :
  getTitleForCitekey Demo.published "a" = Normal "2020_ What_ _draft_ a"
  ∧ ∀ c, c ∈ DISALLOWED_FILENAME_CHARACTERS ->
         c ∉ chars "2020_ What_ _draft_ a".
Proof.
  destruct (getTitleForCitekey_sanitized Demo.published "a"
              (new_Library {[ "a" := [("id", "a"); ("key", "a")] ]})
              [("citekey", "a"); ("id", "a"); ("key", "a")]
              (fun variables =>
                 Normal ("2020: What? <draft> "
                         ++ default "" (Demo.field variables "citekey"))%string)
              "2020: What? <draft> a")
    as (title & Htitle & _ & Hnone); try reflexivity.
  assert (Heq : title = "2020_ What_ _draft_ a")
    by (vm_compute in Htitle; by injection Htitle).
  rewrite <- Heq. split; [exact Htitle|exact Hnone].
Defined.

Lemma resolveLibraryPath_resolves_witness :
  resolveLibraryPath (Demo.fresh "refs/./lib.bib" biblatex) "refs/./lib.bib"
  = "/vault/refs/lib.bib"
  ∧ resolveLibraryPath (Demo.fresh "/data//lib.bib" biblatex) "/data//lib.bib"
    = "/data/lib.bib"
  ∧ resolveLibraryPath (Demo.fresh "/data/lib.bib" biblatex) "/data/lib.bib"
    = "/data/lib.bib".
Proof.
  split; [|split].
  - apply (proj1 (resolveLibraryPath_resolves
                    (Demo.fresh "refs/./lib.bib" biblatex) "refs/./lib.bib"));
      reflexivity.
  - apply (proj1 (proj2 (resolveLibraryPath_resolves
                           (Demo.fresh "/data//lib.bib" biblatex)
                           "/data//lib.bib") eq_refl)).
  - apply (proj2 (proj2 (resolveLibraryPath_resolves
                           (Demo.fresh "/data/lib.bib" biblatex)
                           "/data/lib.bib") eq_refl)).
    reflexivity.
Defined.

(** An absolute path is not always returned as it was given. *)
Lemma resolveLibraryPath_not_verbatim :
  Path.isAbsolute "/refs/../library.bib" = true
  ∧ resolveLibraryPath (Demo.fresh "/refs/../library.bib" biblatex)
                       "/refs/../library.bib"
    = "/library.bib"
  ∧ ¬ (∀ (w : World (E := Demo.exports)) (rawPath : string),
          Path.isAbsolute rawPath = true ->
          resolveLibraryPath w rawPath = rawPath).
Proof.
  split; [reflexivity|]. split; [reflexivity|].
  intros Hverbatim.
  specialize (Hverbatim (Demo.fresh "/refs/../library.bib" biblatex)
                        "/refs/../library.bib" eq_refl).
  discriminate Hverbatim.
Qed.

End Instances.

(* ===================================================================== *)
(** * More on path resolution                                              *)
(* ===================================================================== *)

Section ResolvedPaths.
Import JS Types Main Notes Posix.

Lemma split_slashFree_one (seg : string) :
  slashFree seg -> Path.split seg = [seg].
Proof.
  unfold slashFree. induction seg as [|c seg IH]; simpl; [done|].
  intros Hfree. apply not_elem_of_cons in Hfree as [Hc Hfree].
  rewrite decide_False by congruence. by rewrite IH.
Qed.

Lemma split_slashFree (path : string) : Forall slashFree (Path.split path).
Proof.
  induction path as [|c rest IH]; simpl.
  - constructor; [|constructor]. unfold slashFree. simpl. apply not_elem_of_nil.
  - destruct (decide (c = "/"%char)) as [->|Hc].
    + constructor; [|done]. unfold slashFree. simpl. apply not_elem_of_nil.
    + destruct (split_cons rest) as (seg & segs & Hrest). rewrite Hrest in *.
      apply Forall_cons in IH as [Hseg Hsegs]. constructor; [|done].
      unfold slashFree in *. simpl. apply not_elem_of_cons. split; [congruence|done].
Qed.

(** Splitting undoes joining, for segments without slashes. *)
Lemma split_join (seg : string) (segs : list string) :
  Forall slashFree (seg :: segs) ->
  Path.split (Path.join (seg :: segs)) = seg :: segs.
Proof.
  revert seg. induction segs as [|seg' segs IH]; intros seg Hfree.
  - apply Forall_cons in Hfree as [Hseg _]. by apply split_slashFree_one.
  - apply Forall_cons in Hfree as [Hseg Hfree].
    change (Path.join (seg :: seg' :: segs))
      with (seg ++ "/" ++ Path.join (seg' :: segs))%string.
    by rewrite split_glue, IH, split_slashFree_one.
Qed.

(** With [allowAboveRoot] off, [normalizeString] keeps only segments that
    are neither empty, [.] nor [..]. *)
Lemma normalizeSegment_keeps_normal (res : list string) (seg : string) :
  slashFree seg -> normalSegments res ->
  normalSegments (Path.normalizeSegment false res seg).
Proof.
  intros Hfree Hres. unfold Path.normalizeSegment.
  destruct (decide (seg = "" ∨ seg = ".")) as [|Hn1]; [done|].
  destruct (decide (seg = "..")) as [|Hn2].
  - destruct res as [|last before]; [done|].
    apply Forall_cons in Hres as [Hlast Hbefore].
    by destruct (decide (last = "..")); [constructor|].
  - constructor; [|done]. split; [|done].
    unfold Path.isNormalSegment. rewrite decide_False; [done|].
    intros [?|[?|?]]; [apply Hn1; by left|apply Hn1; by right|done].
Qed.

Lemma normalizeSegments_normal_out (segs : list string) :
  Forall slashFree segs -> normalSegments (Path.normalizeSegments false segs).
Proof.
  intros Hfree. unfold Path.normalizeSegments, normalSegments.
  apply Forall_rev.
  assert (Hgen : ∀ res, normalSegments res ->
             normalSegments (fold_left (Path.normalizeSegment false) segs res)).
  { induction Hfree as [|seg segs Hseg _ IH]; intros res Hres; [done|].
    simpl. apply IH. by apply normalizeSegment_keeps_normal. }
  apply Hgen. constructor.
Qed.

Lemma normalSegments_isNormalized (segs : list string) :
  normalSegments segs ->
  Path.isNormalized (String "/" (Path.join segs)) = true.
Proof.
  intros Hsegs. simpl.
  destruct (decide (Path.join segs = "")) as [|Hne]; [done|].
  destruct segs as [|seg segs]; [done|].
  rewrite split_join.
  - apply forallb_forall. intros s Hs. apply list_elem_of_In in Hs.
    unfold normalSegments in Hsegs. rewrite Forall_forall in Hsegs.
    by destruct (Hsegs s Hs).
  - eapply Forall_impl; [exact Hsegs|]. by intros s [_ Hs].
Qed.

(** With an absolute working directory, the loop of [resolve] always ends
    on an absolute path. *)
Lemma resolveLoop_absolute (cwd : string) (paths : list string)
      (resolvedPath : string) :
  Path.isAbsolute cwd = true ->
  ∃ p, Path.resolveLoop (paths ++ [cwd]) resolvedPath = (p, true).
Proof.
  intros Hcwd. revert resolvedPath.
  induction paths as [|path paths IH]; intros resolvedPath; simpl.
  - destruct (isAbsolute_inv cwd Hcwd) as [rest ->]. simpl. by eexists.
  - destruct (truthy path); [|apply IH].
    destruct (Path.isAbsolute path); [by eexists|apply IH].
Qed.

Lemma resolve_isNormalized (cwd : string) (args : list string) :
  Path.isAbsolute cwd = true ->
  Path.isNormalized (Path.resolve cwd args) = true.
Proof.
  intros Hcwd. unfold Path.resolve.
  destruct (resolveLoop_absolute cwd (rev args) "" Hcwd) as [p ->].
  cbn [negb]. unfold Path.normalizeString.
  apply normalSegments_isNormalized, normalizeSegments_normal_out,
    split_slashFree.
Qed.

Lemma isNormalized_isAbsolute (path : string) :
  Path.isNormalized path = true -> Path.isAbsolute path = true.
Proof.
  destruct path as [|c rest]; simpl; [done|].
  by destruct (decide (c = "/"%char)).
Qed.

(** X1. Whatever the export path and the vault root, the path that
    [resolveLibraryPath] returns is absolute and in normal form (no empty,
    [.] or [..] segment, no trailing slash), as long as the working
    directory of the process is an absolute path. *)
Theorem resolveLibraryPath_normalized `{E : Exports} (w : World)
        (rawPath : string) :
  Path.isAbsolute (cwd w) = true ->
  Path.isAbsolute (resolveLibraryPath w rawPath) = true
  ∧ Path.isNormalized (resolveLibraryPath w rawPath) = true.
Proof.
  intros Hcwd.
  assert (Hn : Path.isNormalized (resolveLibraryPath w rawPath) = true)
    by (by apply resolve_isNormalized).
  split; [by apply isNormalized_isAbsolute|done].
Qed.

(** X2. Resolving a resolved path changes nothing: [resolveLibraryPath] is
    idempotent (the working directory being an absolute path). *)
Theorem resolveLibraryPath_idempotent `{E : Exports} (w : World)
        (rawPath : string) :
  Path.isAbsolute (cwd w) = true ->
  resolveLibraryPath w (resolveLibraryPath w rawPath)
  = resolveLibraryPath w rawPath.
Proof.
  intros Hcwd.
  assert (Hn : Path.isNormalized (resolveLibraryPath w rawPath) = true)
    by (by apply resolve_isNormalized).
  unfold resolveLibraryPath at 1.
  rewrite resolve_absolute by (by apply isNormalized_isAbsolute).
  by apply normalizeString_normalized.
Qed.

(** X3. With the export path unset, the path that [init] hands to the
    watcher is the vault root itself (for a vault root in normal form):
    the watcher is then set on the whole vault. *)
Theorem watchedPath_unset `{E : Exports} (w : World) :
  citationExportPath (settings w) = "" ->
  Path.isNormalized (vaultRoot w) = true ->
  watchedPath w = vaultRoot w.
Proof.
  intros Hpath Hroot. unfold watchedPath, resolveLibraryPath. rewrite Hpath.
  rewrite resolve_relative by (by try apply isNormalized_isAbsolute).
  rewrite normalizeString_trailing. by apply normalizeString_normalized.
Qed.

End ResolvedPaths.

(* ===================================================================== *)
(** * More on loading                                                      *)
(* ===================================================================== *)

Section Loading.
Import JS Util Types Main Modals.
Context {E : Exports} {P : Platform}.

Ltac run_statement :=
  unfold tryBlock, catchBlock, loadErrorNotifier_show, try_catch, bindM, eval,
    read, console_log, ret in *.

(** A [try] block that returns has only written its success message, which
    counts the Library held so far. *)
Lemma tryBlock_Normal_world (settled : Completion (list Byte.byte))
      (w w' : World) (result : option (Library Entry)) :
  tryBlock settled w = (Normal result, w') ->
  ∃ current,
    library w = Some current
    ∧ w' = log (console_debug
                  ("Citation plugin: successfully loaded library with "
                   ++ pretty (Library_size current) ++ " entries.")%string) w.
Proof.
  run_statement.
  destruct settled as [buffer|]; [|discriminate].
  destruct (decode buffer) as [value|]; [|discriminate].
  destruct (loadEntries value _) as [records|]; [|discriminate].
  destruct (newLibrary _ records) as [lib|]; [|discriminate].
  destruct (library w) as [current|]; [|discriminate].
  simpl. intros [= _ <-]. by exists current.
Qed.

(** X4. Whatever the state of the plugin and of the files, [loadLibrary]
    returns without throwing.  It assigns neither [this.library] nor the
    settings, leaves the literature-note notifier alone, only appends to
    the console, and puts up at most one notice. *)
Theorem loadLibrary_returns (w : World) :
  ∃ result w',
    loadLibrary w = (Normal result, w')
    ∧ library w' = library w
    ∧ settings w' = settings w
    ∧ literatureNoteErrorNotifier w' = literatureNoteErrorNotifier w
    ∧ (∃ entries, console w' = console w ++ entries)
    ∧ (displayed (host w') = displayed (host w)
       ∨ ∃ n, displayed (host w') = displayed (host w) ++ [n]).
Proof.
  destruct (truthy (citationExportPath (settings w))) eqn:Hpath.
  - rewrite loadLibrary_set_path by done.
    set (w0 := log (console_debug "Citation plugin: Reloading library") w).
    set (settled := readLocalFile w _).
    destruct (tryBlock settled w0) as [[r|e] w1] eqn:Htry.
    + exists r, w1. unfold loadLibrary_resume, try_catch. rewrite Htry.
      apply tryBlock_Normal_world in Htry as (current & _ & ->).
      simpl. repeat split; [|by left].
      eexists. by rewrite <- app_assoc.
    + eexists _, _. split.
      { apply (loadLibrary_resume_failure settled w0 e). by rewrite Htry. }
      simpl. repeat split; [eexists; by rewrite <- app_assoc|].
      rewrite shown_displayed. simpl.
      destruct (currentNotice (loadErrorNotifier w)); [by left|right; by eexists].
  - eexists _, _. split; [by apply loadLibrary_unset_path|].
    simpl. repeat split; [|by left]. eexists. by rewrite <- app_assoc.
Qed.

(** X5. When the export path is set, the file reads, decodes and parses,
    every record adapts and [this.library] already holds a Library,
    [loadLibrary] returns the Library built from the records and changes
    nothing but the console.  The count in its success message is the size
    of the Library held before the load, not of the one just built. *)
Theorem loadLibrary_success (w : World) (buffer : list Byte.byte)
        (value : string) (records : list EntryData)
        (lib current : Library Entry) :
  truthy (citationExportPath (settings w)) = true ->
  readLocalFile w (resolveLibraryPath w (citationExportPath (settings w)))
  = Normal buffer ->
  decode buffer = Normal value ->
  loadEntries value (citationExportFormat (settings w)) = Normal records ->
  newLibrary (citationExportFormat (settings w)) records = Normal lib ->
  library w = Some current ->
  loadLibrary w
  = (Normal (Some lib),
     log (console_debug
            ("Citation plugin: successfully loaded library with "
             ++ pretty (Library_size current) ++ " entries.")%string)
         (log (console_debug "Citation plugin: Reloading library") w)).
Proof.
  intros Hpath Hread Hvalue Hrecords Hlib Hcurrent.
  rewrite loadLibrary_set_path, Hread by done.
  unfold loadLibrary_resume. run_statement. simpl.
  by rewrite Hvalue, Hrecords, Hlib, Hcurrent.
Qed.

(** X6. [loadLibrary] returns a Library only when [this.library] already
    holds one (and the path is set and every stage of the load went
    through): the first load of a plugin can only return [null]. *)
Theorem loadLibrary_needs_library (w w' : World) (lib : Library Entry) :
  loadLibrary w = (Normal (Some lib), w') ->
  truthy (citationExportPath (settings w)) = true
  ∧ is_Some (library w)
  ∧ ∃ buffer value records,
      readLocalFile w (resolveLibraryPath w (citationExportPath (settings w)))
      = Normal buffer
      ∧ decode buffer = Normal value
      ∧ loadEntries value (citationExportFormat (settings w)) = Normal records
      ∧ newLibrary (citationExportFormat (settings w)) records = Normal lib.
Proof.
  intros Hload.
  destruct (truthy (citationExportPath (settings w))) eqn:Hpath;
    [|rewrite loadLibrary_unset_path in Hload by done; discriminate].
  split; [done|]. rewrite loadLibrary_set_path in Hload by done.
  split.
  - destruct (library w) as [current|] eqn:Hcurrent; [by eexists|].
    destruct (loadLibrary_resume_unset_library
                (readLocalFile w
                   (resolveLibraryPath w (citationExportPath (settings w))))
                (log (console_debug "Citation plugin: Reloading library") w))
      as (w1 & Hnone & _); [done|].
    rewrite Hnone in Hload. discriminate.
  - apply loadLibrary_resume_success in Hload
      as (buffer & value & records & ? & ? & ? & ?).
    by exists buffer, value, records.
Qed.

Lemma suggestions_unset (w : World) :
  library w = None -> ∃ msg, suggestions w = Throw (TypeError msg).
Proof. intros Hnone. unfold suggestions. rewrite Hnone. by eexists. Qed.

(** X7. From a state in which [this.library] is unset (as it is when the
    plugin is constructed), no sequence of triggers and settled reads ever
    sets it, whatever the files hold; and the constructor of a search modal,
    which reads [plugin.library.entries], then throws a [TypeError]. *)
Theorem library_never_loads (s : Loop) (ds : list Dispatch) :
  library (world s) = None ->
  library (world (dispatchAll ds s)) = None
  ∧ ∃ msg, suggestions (world (dispatchAll ds s)) = Throw (TypeError msg).
Proof.
  intros Hnone.
  assert (Hafter : library (world (dispatchAll ds s)) = None)
    by (by apply dispatchAll_unset_library).
  split; [done|by apply suggestions_unset].
Qed.

(** X8. A reload that does not succeed discards the Library held so far:
    [this.library] is [null] after a settled read whose [try] block
    throws, and after a trigger with the export path unset. *)
Theorem failed_reload_clears_library (s : Loop) :
  (∀ load p settled e,
      inFlight s !! load = Some p ->
      (tryBlock settled (world s)).1 = Throw e ->
      library (world (dispatch (ReadSettled load settled) s)) = None)
  ∧ (∀ src,
        truthy (citationExportPath (settings (world s))) = false ->
        library (world (dispatch (Trigger src) s)) = None).
Proof.
  split.
  - intros load p settled e Hp Hthrow. simpl. rewrite Hp.
    by rewrite (loadLibrary_resume_failure settled (world s) e Hthrow).
  - intros src Hpath. simpl. unfold loadLibrary_start. run_statement.
    simpl. by rewrite Hpath.
Qed.

End Loading.

(* ===================================================================== *)
(** * More on the Notifier and on titles                                   *)
(* ===================================================================== *)

Section Rearming.
Import JS Util Types Main.

Lemma step_defaultMessage (ev : Event) (st : Notifier * Host) :
  defaultMessage (step ev st).1 = defaultMessage st.1.
Proof.
  destruct st as [nt h]. destruct ev as [message| | |id|id|id]; simpl;
    try done.
  - unfold show. by destruct (currentNotice nt).
  - unfold deliver. destruct (mutationObserver nt) as [target|]; [|done].
    by destruct (decide (target = id)).
  - unfold deliver. destruct (mutationObserver nt) as [target|]; [|done].
    by destruct (decide (target = id)).
Qed.

Lemma run_defaultMessage (evs : list Event) (st : Notifier * Host) :
  defaultMessage (run evs st).1 = defaultMessage st.1.
Proof.
  revert st. induction evs as [|ev evs IH]; intros st; [done|].
  simpl. by rewrite IH, step_defaultMessage.
Qed.

Lemma run_app (evs1 evs2 : list Event) (st : Notifier * Host) :
  run (evs1 ++ evs2) st = run evs2 (run evs1 st).
Proof. apply fold_left_app. Qed.

(** In a state with no current notice and an empty display, [show] puts
    up one notice. *)
Lemma step_show_rearmed (message : option string) (st : Notifier * Host) :
  consistent st -> currentNotice st.1 = None ->
  displayed (step (CallShow message) st).2
  = [mkNotice (nextNoticeId st.2)
       (match message with
        | Some m => if truthy m then m else defaultMessage st.1
        | None => defaultMessage st.1
        end)].
Proof.
  destruct st as [nt h]. unfold consistent. simpl. intros Hc Hcur.
  rewrite Hcur in Hc. destruct Hc as [Hshown _].
  unfold show. rewrite Hcur. simpl. by rewrite Hshown.
Qed.

Lemma nextNoticeId_remove (id : nat) (h : Host) :
  nextNoticeId (remove_Notice id h) = nextNoticeId h.
Proof. reflexivity. Qed.

(** X9. A notifier can be used again: after [hide()], and after the host
    has started to fade out the current notice, the next [show(message)]
    puts up exactly one notice.  Its text is the message, or the default
    message of the notifier when the message is missing or empty. *)
Theorem Notifier_rearms (defaultMessage : string) (evs : list Event)
        (message : option string) :
  let st := run evs (initial defaultMessage) in
  let text :=
    match message with
    | Some m => if truthy m then m else defaultMessage
    | None => defaultMessage
    end in
  displayed (run (evs ++ [CallHide; CallShow message])
                 (initial defaultMessage)).2
  = [mkNotice (nextNoticeId st.2) text]
  ∧ (∀ n, currentNotice st.1 = Some n ->
          displayed (run (evs ++ [HostDisappear (noticeId n); CallShow message])
                         (initial defaultMessage)).2
          = [mkNotice (nextNoticeId st.2) text]).
Proof.
  intros st text.
  assert (Hc : consistent st) by apply run_consistent, initial_consistent.
  assert (Hd : Util.defaultMessage st.1 = defaultMessage)
    by apply run_defaultMessage.
  split.
  - rewrite run_app. fold st.
    change (run [CallHide; CallShow message] st)
      with (step (CallShow message) (step CallHide st)).
    assert (Hc1 : consistent (step CallHide st)) by (by apply step_consistent).
    rewrite step_show_rearmed; [|done|by destruct st].
    rewrite step_defaultMessage, Hd. f_equal. f_equal.
    destruct st as [nt h]. simpl. by destruct (currentNotice nt).
  - intros n Hn. rewrite run_app. fold st.
    change (run [HostDisappear (noticeId n); CallShow message] st)
      with (step (CallShow message) (step (HostDisappear (noticeId n)) st)).
    assert (Hc1 : consistent (step (HostDisappear (noticeId n)) st))
      by (by apply step_consistent).
    assert (Hobs : mutationObserver st.1 = Some (noticeId n)).
    { unfold consistent in Hc. rewrite Hn in Hc. by destruct Hc. }
    rewrite step_show_rearmed; [|done|].
    + rewrite step_defaultMessage, Hd. by destruct st.
    + destruct st as [nt h]. simpl in *. unfold deliver. rewrite Hobs.
      by rewrite decide_True.
Qed.

End Rearming.

Section Titles.
Import JS Util Types Main.
Context {E : Exports} {P : Platform}.

Lemma chars_inj (s1 s2 : string) : chars s1 = chars s2 -> s1 = s2.
Proof.
  revert s2. induction s1 as [|c s1 IH]; intros [|c' s2]; simpl; try done.
  intros [= -> Hrest]. f_equal. by apply IH.
Qed.

Lemma chars_length (s : string) : length (chars s) = String.length s.
Proof. induction s as [|c s IH]; simpl; [done|]. by rewrite IH. Qed.

Lemma chars_app (s1 s2 : string) :
  chars (s1 ++ s2)%string = chars s1 ++ chars s2.
Proof. induction s1 as [|c s1 IH]; simpl; [done|]. by rewrite IH. Qed.

Lemma string_app_assoc (s1 s2 s3 : string) :
  ((s1 ++ s2) ++ s3 = s1 ++ s2 ++ s3)%string.
Proof.
  induction s1 as [|c s1 IH]; [done|].
  change (String c ((s1 ++ s2) ++ s3) = String c (s1 ++ s2 ++ s3))%string.
  by rewrite IH.
Qed.

(** A title that [getTitleForCitekey] returns is a sanitised text. *)
Lemma getTitleForCitekey_Normal (w : World) (citekey title : string) :
  getTitleForCitekey w citekey = Normal title ->
  ∃ unsafeTitle,
    title = replace_class DISALLOWED_FILENAME_CHARACTERS_RE "_" unsafeTitle.
Proof.
  unfold getTitleForCitekey.
  destruct (compileTemplate _ _) as [template|]; [|discriminate]. simpl.
  destruct (library w) as [lib|]; [|discriminate].
  destruct (getTemplateVariablesForCitekey lib citekey) as [variables|];
    [|discriminate]. simpl.
  destruct (template variables) as [unsafeTitle|]; [|discriminate]. simpl.
  intros [= <-]. by exists unsafeTitle.
Qed.

Lemma replace_class_clean (s : string) :
  replace_class DISALLOWED_FILENAME_CHARACTERS_RE "_" s = s
  ↔ ∀ c, c ∈ chars s -> c ∉ DISALLOWED_FILENAME_CHARACTERS.
Proof.
  induction s as [|c s IH]; simpl.
  - split; [|done]. intros _ c Hc. by apply elem_of_nil in Hc.
  - unfold DISALLOWED_FILENAME_CHARACTERS_RE at 1.
    destruct (decide (c ∈ DISALLOWED_FILENAME_CHARACTERS)) as [Hin|Hout].
    + split.
      * intros [= Hc _]. subst c. exfalso. revert Hin.
        pose proof underscore_allowed as Hu.
        unfold DISALLOWED_FILENAME_CHARACTERS_RE in Hu. by case_decide.
      * intros Hall. exfalso. apply (Hall c); [apply list_elem_of_here|done].
    + split.
      * intros [= Hs] c' Hc'. apply elem_of_cons in Hc' as [->|Hc']; [done|].
        by apply IH.
      * intros Hall. f_equal. apply IH. intros c' Hc'. apply Hall.
        by apply list_elem_of_further.
Qed.

(** X10. Sanitising a title keeps its length, and leaves the rendered text
    as it is exactly when that text holds no disallowed character. *)
Theorem getTitleForCitekey_conservative (w : World) (citekey : string)
        (lib : Library Entry) (variables : TemplateVariables)
        (template : TemplateVariables -> Completion string)
        (unsafeTitle : string) :
  library w = Some lib ->
  getTemplateVariablesForCitekey lib citekey = Normal variables ->
  compileTemplate (literatureNoteTitleTemplate (settings w)) templateSettings
  = Normal template ->
  template variables = Normal unsafeTitle ->
  ∃ title,
    getTitleForCitekey w citekey = Normal title
    ∧ String.length title = String.length unsafeTitle
    ∧ (title = unsafeTitle
       ↔ ∀ c, c ∈ chars unsafeTitle -> c ∉ DISALLOWED_FILENAME_CHARACTERS).
Proof.
  intros Hlib Hvars Htemplate Hrender. eexists. split.
  { unfold getTitleForCitekey. rewrite Htemplate. simpl.
    rewrite Hlib, Hvars. simpl. by rewrite Hrender. }
  split; [|apply replace_class_clean].
  by rewrite <- !chars_length, chars_replace_class, length_fmap.
Qed.

End Titles.

(* ===================================================================== *)
(** * The path of a literature note                                        *)
(* ===================================================================== *)

Section NotePaths.
Import JS Util Types Main Notes Posix.
Context {E : Exports} {P : Platform}.

Lemma sanitised_allowed (s : string) (c : ascii) :
  c ∈ DISALLOWED_FILENAME_CHARACTERS ->
  c ∉ chars (replace_class DISALLOWED_FILENAME_CHARACTERS_RE "_" s).
Proof.
  intros Hc Hin. rewrite chars_replace_class in Hin.
  apply list_elem_of_fmap in Hin as (c' & Heq & _).
  pose proof underscore_allowed as Hu.
  unfold DISALLOWED_FILENAME_CHARACTERS_RE in Heq, Hu.
  destruct (decide (c' ∈ DISALLOWED_FILENAME_CHARACTERS)); subst c; [|done].
  by destruct (decide ("_"%char ∈ DISALLOWED_FILENAME_CHARACTERS)).
Qed.

(** The file name [title + '.md'] of a sanitised title has no slash and is
    neither empty, [.] nor [..]. *)
Lemma note_file_name (unsafeTitle : string) :
  let file :=
    (replace_class DISALLOWED_FILENAME_CHARACTERS_RE "_" unsafeTitle
     ++ ".md")%string in
  slashFree file ∧ Path.isNormalSegment file = true.
Proof.
  intros file. split.
  - unfold slashFree, file. rewrite chars_app. intros Hin.
    apply elem_of_app in Hin as [Hin|Hin].
    + revert Hin. apply sanitised_allowed.
      unfold DISALLOWED_FILENAME_CHARACTERS. set_unfold. tauto.
    + simpl in Hin. set_unfold. by destruct Hin as [?|[?|[?|?]]].
  - unfold Path.isNormalSegment. rewrite decide_False; [done|].
    assert (Hlen : 3 <= String.length file).
    { unfold file. rewrite <- chars_length, chars_app, length_app. simpl. lia. }
    intros [Heq|[Heq|Heq]]; rewrite Heq in Hlen; simpl in Hlen; lia.
Qed.

Lemma endsWithSlash_slashFree (s : string) :
  slashFree s -> endsWithSlash s = false.
Proof.
  unfold slashFree. induction s as [|c s IH]; [done|]. simpl chars.
  intros Hfree. apply not_elem_of_cons in Hfree as [Hc Hfree].
  destruct s as [|c' s]; simpl.
  - by rewrite decide_False by congruence.
  - by apply IH.
Qed.

Lemma endsWithSlash_app (s1 s2 : string) :
  s2 ≠ "" -> endsWithSlash (s1 ++ s2)%string = endsWithSlash s2.
Proof.
  intros Hne. induction s1 as [|c s1 IH]; [done|].
  change (String c s1 ++ s2)%string with (String c (s1 ++ s2)%string).
  destruct (s1 ++ s2)%string as [|c' rest] eqn:Happ.
  - destruct s1; simpl in Happ; [done|discriminate].
  - simpl. simpl in IH. exact IH.
Qed.

Lemma normalizeSegment_push (allowAboveRoot : bool) (res : list string)
      (seg : string) :
  Path.isNormalSegment seg = true ->
  Path.normalizeSegment allowAboveRoot res seg = seg :: res.
Proof.
  unfold Path.isNormalSegment.
  destruct (decide (seg = "" ∨ seg = "." ∨ seg = "..")) as [|Hn];
    [discriminate|]. intros _.
  unfold Path.normalizeSegment.
  rewrite decide_False by (intros [?|?]; apply Hn; auto).
  by rewrite decide_False by (intros ?; apply Hn; auto).
Qed.

Lemma normalizeSegments_snoc (allowAboveRoot : bool) (segs : list string)
      (seg : string) :
  Path.isNormalSegment seg = true ->
  Path.normalizeSegments allowAboveRoot (segs ++ [seg])
  = Path.normalizeSegments allowAboveRoot segs ++ [seg].
Proof.
  intros Hseg. unfold Path.normalizeSegments. rewrite fold_left_app. simpl.
  by rewrite normalizeSegment_push.
Qed.

Lemma normalizeSegment_slashFree (allowAboveRoot : bool) (res : list string)
      (seg : string) :
  slashFree seg -> Forall slashFree res ->
  Forall slashFree (Path.normalizeSegment allowAboveRoot res seg).
Proof.
  intros Hseg Hres. unfold Path.normalizeSegment.
  destruct (decide (seg = "" ∨ seg = ".")); [done|].
  destruct (decide (seg = "..")) as [->|]; [|by constructor].
  destruct res as [|last before].
  - destruct allowAboveRoot; [by constructor|done].
  - apply Forall_cons in Hres as [Hlast Hbefore].
    destruct (decide (last = "..")); [|done].
    destruct allowAboveRoot; by repeat constructor.
Qed.

Lemma normalizeSegments_slashFree (allowAboveRoot : bool)
      (segs : list string) :
  Forall slashFree segs ->
  Forall slashFree (Path.normalizeSegments allowAboveRoot segs).
Proof.
  intros Hfree. unfold Path.normalizeSegments. apply Forall_rev.
  assert (Hgen : ∀ res, Forall slashFree res ->
             Forall slashFree
               (fold_left (Path.normalizeSegment allowAboveRoot) segs res)).
  { induction Hfree as [|seg segs Hseg _ IH]; intros res Hres; [done|].
    simpl. apply IH. by apply normalizeSegment_slashFree. }
  apply Hgen. constructor.
Qed.

Lemma join_snoc (seg : string) (segs : list string) (file : string) :
  Path.join ((seg :: segs) ++ [file])
  = (Path.join (seg :: segs) ++ "/" ++ file)%string.
Proof.
  revert seg. induction segs as [|seg' segs IH]; intros seg; [done|].
  change (Path.join ((seg :: seg' :: segs) ++ [file]))
    with (seg ++ "/" ++ Path.join ((seg' :: segs) ++ [file]))%string.
  rewrite IH.
  change (Path.join (seg :: seg' :: segs))
    with (seg ++ "/" ++ Path.join (seg' :: segs))%string.
  by rewrite !string_app_assoc.
Qed.

Lemma join_snoc_truthy (segs : list string) (file : string) :
  truthy file = true -> truthy (Path.join (segs ++ [file])) = true.
Proof.
  intros Hfile. destruct segs as [|seg segs]; [done|].
  rewrite join_snoc. destruct (Path.join (seg :: segs)); [|done].
  simpl. done.
Qed.

(** [path.join(folder, file)] for a file name in normal form. *)
Lemma join_folder_file (folder file : string) :
  slashFree file -> Path.isNormalSegment file = true ->
  Posix.join [folder; file]
  = ((if Path.isAbsolute folder then "/" else "")
     ++ Path.join (dirSegments folder ++ [file]))%string.
Proof.
  intros Hfree Hnormal.
  assert (Hfile : truthy file = true).
  { destruct file; [|done]. by vm_compute in Hnormal. }
  assert (Hne : file ≠ "") by (by destruct file).
  assert (Hrel : Path.isAbsolute file = false).
  { destruct file as [|c file]; [done|]. simpl.
    destruct (decide (c = "/"%char)) as [->|]; [|done].
    exfalso. apply Hfree. simpl. apply list_elem_of_here. }
  unfold Posix.join, dirSegments.
  destruct folder as [|c folder].
  - rewrite filter_cons_False by (simpl; congruence).
    rewrite filter_cons_True by done. rewrite filter_nil.
    cbn [Path.join app Path.isAbsolute truthy]. unfold normalize.
    rewrite Hfile, Hrel. cbn [negb].
    rewrite endsWithSlash_slashFree by done.
    unfold Path.normalizeString. rewrite split_slashFree_one by done.
    change [file] with ([] ++ [file]).
    rewrite normalizeSegments_snoc by done.
    rewrite join_snoc_truthy by done. done.
  - rewrite !filter_cons_True by done. rewrite filter_nil.
    set (dir := String c folder).
    change (Path.join [dir; file]) with (dir ++ "/" ++ file)%string.
    unfold normalize.
    replace (truthy (dir ++ "/" ++ file)%string) with true by done.
    replace (Path.isAbsolute (dir ++ "/" ++ file)%string)
      with (Path.isAbsolute dir) by done.
    rewrite (endsWithSlash_app dir) by done.
    rewrite (endsWithSlash_app "/") by done.
    rewrite endsWithSlash_slashFree by done.
    unfold Path.normalizeString.
    rewrite split_glue, (split_slashFree_one file) by done.
    rewrite normalizeSegments_snoc by done.
    rewrite join_snoc_truthy by done.
    cbn [truthy]. by destruct (Path.isAbsolute dir).
Qed.

Lemma dirSegments_slashFree (folder : string) :
  Forall slashFree (dirSegments folder).
Proof.
  unfold dirSegments. destruct (truthy folder); [|constructor].
  apply normalizeSegments_slashFree, split_slashFree.
Qed.

Lemma getPathForCitekey_Normal (ws : Workspace) (citekey title : string) :
  getTitleForCitekey (plugin ws) citekey = Normal title ->
  getPathForCitekey ws citekey
  = Normal ((if Path.isAbsolute (literatureNoteFolder ws) then "/" else "")
            ++ Path.join (dirSegments (literatureNoteFolder ws)
                          ++ [title ++ ".md"]))%string
  ∧ slashFree (title ++ ".md")%string.
Proof.
  intros Htitle. unfold getPathForCitekey. rewrite Htitle. simpl.
  apply getTitleForCitekey_Normal in Htitle as [unsafeTitle ->].
  destruct (note_file_name unsafeTitle) as [Hfree Hnormal].
  split; [|done]. f_equal. by apply join_folder_file.
Qed.

(** X11. The path of a literature note always ends in the segment
    [title + '.md'], where the title is the one [getTitleForCitekey]
    returns: whatever the template renders and whatever the folder setting
    is, the last segment of the path holds no slash, so the note is a file
    directly under the (normalised) folder. *)
Theorem getPathForCitekey_basename (ws : Workspace) (citekey title : string) :
  getTitleForCitekey (plugin ws) citekey = Normal title ->
  ∃ path,
    getPathForCitekey ws citekey = Normal path
    ∧ last (Path.split path) = Some (title ++ ".md")%string
    ∧ slashFree (title ++ ".md")%string.
Proof.
  intros Htitle.
  destruct (getPathForCitekey_Normal ws citekey title Htitle) as [-> Hfree].
  eexists. split; [done|]. split; [|done].
  pose proof (dirSegments_slashFree (literatureNoteFolder ws)) as Hdir.
  assert (Hsplit :
    Path.split (Path.join (dirSegments (literatureNoteFolder ws)
                           ++ [title ++ ".md"]%string))
    = dirSegments (literatureNoteFolder ws) ++ [(title ++ ".md")%string]).
  { destruct (dirSegments (literatureNoteFolder ws)) as [|seg segs].
    - by apply split_slashFree_one.
    - apply split_join. rewrite app_comm_cons. apply Forall_app.
      split; [done|by constructor]. }
  destruct (Path.isAbsolute (literatureNoteFolder ws)).
  - change (Path.split ("/" ++ ?p)%string) with ("" :: Path.split p).
    rewrite Hsplit, app_comm_cons. apply last_snoc.
  - change ("" ++ ?p)%string with p. rewrite Hsplit. apply last_snoc.
Qed.

(** X12. With the folder setting empty the note's path is [title + '.md'];
    with a relative folder in normal form it is the folder, a slash and
    [title + '.md']. *)
Theorem getPathForCitekey_in_folder (ws : Workspace) (citekey title : string) :
  getTitleForCitekey (plugin ws) citekey = Normal title ->
  (literatureNoteFolder ws = "" ->
   getPathForCitekey ws citekey = Normal (title ++ ".md")%string)
  ∧ (forallb Path.isNormalSegment (Path.split (literatureNoteFolder ws)) = true ->
     getPathForCitekey ws citekey
     = Normal (literatureNoteFolder ws ++ "/" ++ title ++ ".md")%string).
Proof.
  intros Htitle.
  destruct (getPathForCitekey_Normal ws citekey title Htitle) as [-> _].
  split.
  - intros ->. done.
  - intros Hnormal. f_equal.
    destruct (literatureNoteFolder ws) as [|c folder] eqn:Hfolder;
      [discriminate|].
    assert (Hrel : Path.isAbsolute (String c folder) = false).
    { simpl. destruct (decide (c = "/"%char)) as [->|]; [|done].
      simpl in Hnormal. discriminate. }
    rewrite Hrel. unfold dirSegments. rewrite Hrel. cbn [truthy negb].
    rewrite normalizeSegments_normal by done.
    destruct (split_cons (String c folder)) as (seg & segs & Hsplit).
    rewrite Hsplit, join_snoc, <- Hsplit, join_split. done.
Qed.

End NotePaths.

(* ===================================================================== *)
(** * Finding or creating a literature note                                *)
(* ===================================================================== *)

Section NoteFiles.
Import JS Util Types Main Notes.
Context {E : Exports} {P : Platform} {O : Obsidian}.

Lemma getAbstractFileByPath_Some (p : string) (files : list TAbstractFile)
      (f : TAbstractFile) :
  getAbstractFileByPath p files = Some f -> f ∈ files ∧ path f = p.
Proof.
  intros Hfind. apply find_some in Hfind as [Hin Hp].
  split; [by apply list_elem_of_In|]. by case_decide.
Qed.

Lemma getAbstractFileByPath_None (p : string) (files : list TAbstractFile) :
  getAbstractFileByPath p files = None -> ∀ f, f ∈ files -> path f ≠ p.
Proof.
  intros Hfind f Hin Hp. apply list_elem_of_In in Hin.
  apply (find_none _ _ Hfind f) in Hin. by rewrite decide_True in Hin.
Qed.

Lemma matches_head (p : string) (files : list TAbstractFile)
      (f : TAbstractFile) (rest : list TAbstractFile) :
  matches p files = f :: rest ->
  f ∈ files ∧ markdown f = true ∧ toLowerCase (path f) = toLowerCase p.
Proof.
  intros Hm.
  assert (Hin : In f (matches p files)) by (rewrite Hm; by left).
  unfold matches, getMarkdownFiles in Hin.
  apply filter_In in Hin as [Hin Hlow]. apply filter_In in Hin as [Hin Hmd].
  split; [by apply list_elem_of_In|]. split; [done|]. by case_decide.
Qed.

Lemma matches_nil (p : string) (files : list TAbstractFile) :
  matches p files = [] ->
  ∀ f, f ∈ files -> markdown f = true ->
       toLowerCase (path f) ≠ toLowerCase p.
Proof.
  intros Hm f Hin Hmd Hlow.
  assert (Hf : In f (matches p files)).
  { unfold matches, getMarkdownFiles. apply filter_In. split.
    - apply filter_In. split; [by apply list_elem_of_In|done].
    - by rewrite decide_True. }
  by rewrite Hm in Hf.
Qed.

(** X13. A file that [getOrCreateLiteratureNoteFile] returns belongs to the
    vault afterwards, and the plugin (notifiers included) is untouched.
    Either the vault is as it was and the file is one whose lower-cased
    path is that of the note, or the file was created and then no file of
    the vault had the note's normalised path and no Markdown file had it up
    to case: a note is never created beside an existing one. *)
Theorem getOrCreateLiteratureNoteFile_returns (citekey : string)
        (ws ws' : Workspace) (file : TAbstractFile) :
  getOrCreateLiteratureNoteFile citekey ws = (Normal file, ws') ->
  file ∈ vault ws'
  ∧ plugin ws' = plugin ws
  ∧ ∃ notePath,
      getPathForCitekey ws citekey = Normal notePath
      ∧ ((vault ws' = vault ws
          ∧ toLowerCase (path file) = toLowerCase (normalizePath notePath))
         ∨ (vault ws' = vault ws ++ [file]
            ∧ (∀ f, f ∈ vault ws -> path f ≠ normalizePath notePath)
            ∧ (∀ f, f ∈ vault ws -> markdown f = true ->
                    toLowerCase (path f)
                    ≠ toLowerCase (normalizePath notePath)))).
Proof.
  unfold getOrCreateLiteratureNoteFile.
  destruct (getPathForCitekey ws citekey) as [notePath|]; [|discriminate].
  destruct (getAbstractFileByPath _ _) as [f|] eqn:Hexact.
  { intros [= <- <-]. apply getAbstractFileByPath_Some in Hexact as [Hin Hp].
    split; [done|]. split; [done|]. exists notePath. split; [done|].
    left. by rewrite Hp. }
  destruct (matches _ _) as [|f rest] eqn:Hmatches.
  - destruct (bind _ _) as [f|]; [|discriminate].
    intros [= <- <-]. simpl. split; [apply elem_of_app; right; apply list_elem_of_here|].
    split; [done|]. exists notePath. split; [done|]. right.
    split; [done|]. split.
    + by apply getAbstractFileByPath_None.
    + by apply matches_nil.
  - intros [= <- <-]. apply matches_head in Hmatches as (Hin & _ & Hlow).
    split; [done|]. split; [done|]. exists notePath. split; [done|]. by left.
Qed.

(** X14. When [getOrCreateLiteratureNoteFile] fails, the vault is as it
    was.  Either the path of the note could not be computed (the title did
    not render, for instance because the citekey is unknown): then nothing
    at all has changed and no notice is shown.  Or no note was found and
    rendering the content or [vault.create] threw: then the exception is
    thrown on after one call of [show()] on the literature-note notifier,
    which puts up a notice unless one is on display. *)
Theorem getOrCreateLiteratureNoteFile_fails (citekey : string)
        (ws ws' : Workspace) (exc : Exception) :
  getOrCreateLiteratureNoteFile citekey ws = (Throw exc, ws') ->
  vault ws' = vault ws
  ∧ ((getPathForCitekey ws citekey = Throw exc ∧ ws' = ws)
     ∨ (∃ notePath,
           getPathForCitekey ws citekey = Normal notePath
           ∧ (getInitialContentForCitekey ws citekey = Throw exc
              ∨ ∃ data,
                  getInitialContentForCitekey ws citekey = Normal data
                  ∧ create (vault ws) notePath data = Throw exc)
           ∧ ws' = literatureNoteErrorNotifier_show ws
           ∧ displayed (host (plugin ws'))
             = match currentNotice (literatureNoteErrorNotifier (plugin ws)) with
               | Some _ => displayed (host (plugin ws))
               | None =>
                   displayed (host (plugin ws))
                   ++ [mkNotice (nextNoticeId (host (plugin ws)))
                         (defaultMessage
                            (literatureNoteErrorNotifier (plugin ws)))]
               end)).
Proof.
  unfold getOrCreateLiteratureNoteFile.
  destruct (getPathForCitekey ws citekey) as [notePath|e] eqn:Hpath.
  2: { intros [= <- <-]. split; [done|]. by left. }
  destruct (getAbstractFileByPath _ _) as [f|]; [discriminate|].
  destruct (matches _ _) as [|f rest]; [|discriminate].
  destruct (getInitialContentForCitekey ws citekey) as [data|e] eqn:Hdata;
    simpl.
  - destruct (create (vault ws) notePath data) as [f|e] eqn:Hcreate;
      [discriminate|].
    intros [= <- <-]. split.
    { unfold literatureNoteErrorNotifier_show.
      by destruct (show None _ _) as [[r nt] h]. }
    right. exists notePath. split; [done|]. split; [right; by exists data|].
    split; [done|].
    rewrite <- (show_displayed None). unfold literatureNoteErrorNotifier_show.
    by destruct (show None _ _) as [[r nt] h].
  - intros [= <- <-]. split.
    { unfold literatureNoteErrorNotifier_show.
      by destruct (show None _ _) as [[r nt] h]. }
    right. exists notePath. split; [done|]. split; [by left|].
    split; [done|].
    rewrite <- (show_displayed None). unfold literatureNoteErrorNotifier_show.
    by destruct (show None _ _) as [[r nt] h].
Qed.

End NoteFiles.

(* ===================================================================== *)
(** * The search modals                                                    *)
(* ===================================================================== *)

Section ModalProperties.
Import JS Modals.
Local Open Scope Z_scope.

(** X15. [shiftMatches] keeps exactly the matches that start at [start] or
    later, in their order, each moved left by [start] and with its end cut
    at [end]; every match it returns starts at 0 or later and ends at
    [end] or earlier.  Matches that start beyond [end] are kept. *)
Theorem shiftMatches_spec (matches : list (Z * Z)) (start end_ : Z) :
  shiftMatches matches start end_
  = List.map (fun m => (m.1 - start, Z.min (m.2 - start) end_))
             (List.filter (fun m => start <=? m.1) matches)
  ∧ Forall (fun m => 0 <= m.1 ∧ m.2 <= end_)
           (shiftMatches matches start end_).
Proof.
  unfold shiftMatches. induction matches as [|[s e] matches [IHeq IHall]];
    [by split|].
  simpl. destruct (decide (0 <= s - start)) as [Hs|Hs].
  - rewrite (proj2 (Z.leb_le start s)) by lia. simpl.
    split; [by rewrite IHeq|]. constructor; [simpl; lia|done].
  - rewrite (proj2 (Z.leb_gt start s)) by lia. by split.
Qed.

Lemma shiftMatches_elem (matches : list (Z * Z)) (start end_ : Z)
      (m : Z * Z) :
  m ∈ matches -> start <= m.1 ->
  (m.1 - start, Z.min (m.2 - start) end_) ∈ shiftMatches matches start end_.
Proof.
  intros Hin Hs. unfold shiftMatches. apply list_elem_of_In, filter_In. split.
  - apply in_map_iff. exists m. split; [done|]. by apply list_elem_of_In.
  - simpl. by rewrite decide_True by lia.
Qed.

(** X16. For the author string the cut is made at the end of the author
    string counted from the start of the whole item text, although the
    matches have been moved left by [authorStringOffset]: a match that
    runs past the end of the author string by no more than
    [authorStringOffset] characters is handed on uncut, with an end beyond
    the length of the author string. *)
Theorem authorMatches_overrun (item : Item) (a : string)
        (allMatches : list (Z * Z)) (m : Z * Z) :
  authorString item = Some a -> truthy a = true ->
  m ∈ allMatches ->
  authorStringOffset item <= m.1 ->
  authorStringOffset item + Z.of_nat (String.length a) < m.2 ->
  m.2 <= 2 * authorStringOffset item + Z.of_nat (String.length a) ->
  ∃ shifted,
    authorMatches item allMatches = Some shifted
    ∧ (m.1 - authorStringOffset item, m.2 - authorStringOffset item) ∈ shifted
    ∧ Z.of_nat (String.length a) < m.2 - authorStringOffset item.
Proof.
  intros Ha Htruthy Hin Hstart Hpast Hwithin.
  unfold authorMatches. rewrite Ha, Htruthy. eexists. split; [done|].
  split; [|lia].
  replace (m.2 - authorStringOffset item)
    with (Z.min (m.2 - authorStringOffset item)
                (authorStringOffset item + Z.of_nat (String.length a)))
    by lia.
  by apply shiftMatches_elem.
Qed.

End ModalProperties.

Section ItemText.
Import JS Modals.

Lemma substring_prefix (a rest : string) :
  String.substring 0 (String.length a) (a ++ rest)%string = a.
Proof.
  induction a as [|c a IH]; simpl; [by destruct rest|]. by rewrite IH.
Qed.

Lemma substring_skip (p s : string) (n m : nat) :
  String.substring (String.length p + n) m (p ++ s)%string
  = String.substring n m s.
Proof. induction p as [|c p IH]; simpl; [done|]. exact IH. Qed.

Lemma string_length_app (s1 s2 : string) :
  String.length (s1 ++ s2)%string = String.length s1 + String.length s2.
Proof. induction s1 as [|c s1 IH]; simpl; [done|]. by rewrite IH. Qed.

(** X17. In the text that [getItemText] builds, the author string starts
    right after the title as the template literal prints it and one blank.
    [authorStringOffset] is that position when the title is defined; when
    the title is [undefined] the text starts with the nine letters of
    [undefined] while [authorStringOffset] is 1, nine characters short. *)
Theorem authorString_position (item : Item) (a : string) :
  authorString item = Some a ->
  String.substring (String.length (interpolate (title item)) + 1)
                   (String.length a) (getItemText item) = a
  ∧ authorStringOffset item
    = (Z.of_nat (String.length (interpolate (title item)) + 1)
       - match title item with Some _ => 0 | None => 9 end)%Z.
Proof.
  intros Ha. split.
  - unfold getItemText. rewrite Ha. simpl interpolate at 2.
    set (t := interpolate (title item)).
    replace (t ++ " " ++ a ++ " " ++ interpolate (pretty <$> year item))%string
      with ((t ++ " ") ++ a ++ " " ++ interpolate (pretty <$> year item))%string
      by apply string_app_assoc.
    replace (String.length t + 1) with (String.length (t ++ " ")%string + 0)
      by (rewrite string_length_app; simpl; lia).
    rewrite substring_skip. apply substring_prefix.
  - unfold authorStringOffset, titleOrEmpty.
    destruct (title item) as [t|]; simpl; lia.
Qed.

End ItemText.

Section OpenNote.
Import JS Modals.
Variable toLowerCase : string -> string.

Lemma substring_all (s : string) :
  String.substring 0 (String.length s) s = s.
Proof. induction s as [|c s IH]; simpl; [done|]. by rewrite IH. Qed.

(** A string is its first [i] characters followed by the rest. *)
Lemma substring_cut (s : string) (i : nat) :
  i <= String.length s ->
  s = (String.substring 0 i s
       ++ String.substring i (String.length s - i) s)%string.
Proof.
  revert i. induction s as [|c s IH]; intros i Hi.
  - simpl in Hi. by replace i with 0 by lia.
  - destruct i as [|i].
    + cbn [String.substring String.length Nat.sub]. simpl.
      by rewrite substring_all.
    + simpl in Hi. cbn [String.substring String.length Nat.sub].
      change (String c (String.substring 0 i s) ++ ?r)%string
        with (String c (String.substring 0 i s ++ r)%string).
      f_equal. apply IH. lia.
Qed.

(** [endsWith] holds exactly of the strings that are some text followed by
    the suffix. *)
Lemma endsWith_spec (s suffix : string) :
  endsWith s suffix = true ↔ ∃ stem, s = (stem ++ suffix)%string.
Proof.
  unfold endsWith. split.
  - destruct (decide (String.length suffix <= String.length s)) as [Hle|];
      [|discriminate].
    destruct (decide (String.substring _ _ s = suffix)) as [Hsub|];
      [|discriminate].
    intros _.
    exists (String.substring 0 (String.length s - String.length suffix) s).
    pose proof (substring_cut s (String.length s - String.length suffix))
      as Hcut.
    replace (String.length s - (String.length s - String.length suffix))
      with (String.length suffix) in Hcut by lia.
    rewrite Hsub in Hcut. apply Hcut. lia.
  - intros [stem ->]. rewrite string_length_app.
    rewrite decide_True by lia.
    replace (String.length stem + String.length suffix - String.length suffix)
      with (String.length stem + 0) by lia.
    rewrite substring_skip, substring_all. by rewrite decide_True.
Qed.

Lemma filter_head {A : Type} (f : A -> bool) (l : list A) (x : A)
      (rest : list A) :
  List.filter f l = x :: rest ->
  ∃ before after,
    l = before ++ x :: after ∧ f x = true
    ∧ Forall (fun y => f y = false) before.
Proof.
  induction l as [|y l IH]; simpl; [discriminate|].
  destruct (f y) eqn:Hy.
  - intros [= -> _]. exists [], l. by repeat split.
  - intros Hrest. destruct (IH Hrest) as (before & after & -> & Hx & Hb).
    exists (y :: before), after. repeat split; [done|by constructor].
Qed.

Lemma filter_nil_all {A : Type} (f : A -> bool) (l : list A) :
  List.filter f l = [] -> Forall (fun y => f y = false) l.
Proof.
  induction l as [|y l IH]; simpl; [constructor|].
  destruct (f y) eqn:Hy; [discriminate|]. intros Hrest. by constructor; auto.
Qed.

(** X18. On Shift+Tab the modal opens exactly one thing or shows its
    notice, never both: it opens the first attached file whose lower-cased
    path ends in the three letters [pdf] (with or without a dot before
    them), and it shows the notice when no attached file does, which
    includes an entry without a [files] field. *)
Theorem onChooseItem_shift_tab (item : Item) (ctrlKey : bool) :
  match onChooseItem toLowerCase item (KeyboardEvent "Tab" ctrlKey true) with
  | OpenURL url =>
      ∃ before first after stem,
        default [] (files item) = before ++ first :: after
        ∧ url = ("file://" ++ first)%string
        ∧ toLowerCase first = (stem ++ "pdf")%string
        ∧ Forall (fun p => ∀ stem', toLowerCase p ≠ (stem' ++ "pdf")%string)
                 before
  | ShowNotice message =>
      message = "This reference has no associated PDF files."
      ∧ Forall (fun p => ∀ stem', toLowerCase p ≠ (stem' ++ "pdf")%string)
               (default [] (files item))
  | _ => False
  end.
Proof.
  assert (Hnot : ∀ l,
    Forall (fun p => endsWith (toLowerCase p) "pdf" = false) l ->
    Forall (fun p => ∀ stem', toLowerCase p ≠ (stem' ++ "pdf")%string) l).
  { intros l Hl. eapply Forall_impl; [exact Hl|]. intros p Hp stem' Heq.
    assert (Hends : endsWith (toLowerCase p) "pdf" = true)
      by (apply endsWith_spec; by exists stem').
    congruence. }
  unfold onChooseItem. rewrite decide_False by discriminate.
  rewrite decide_True by done.
  destruct (pdfPaths toLowerCase item) as [|first rest] eqn:Hpdf.
  - split; [done|]. by apply Hnot, filter_nil_all.
  - apply filter_head in Hpdf as (before & after & Hfiles & Hfirst & Hbefore).
    apply endsWith_spec in Hfirst as [stem Hstem].
    exists before, first, after, stem. repeat split; [done..|by apply Hnot].
Qed.

End OpenNote.

(* ===================================================================== *)
(** * The further theorems at work on the small instances                  *)
(* ===================================================================== *)

Section MoreInstances.
Import JS Util Types Main Notes Modals.

Lemma resolveLibraryPath_normalized_witness :
  resolveLibraryPath (Demo.fresh "" biblatex) "../refs//./lib.bib"
  = "/refs/lib.bib"
  ∧ Path.isAbsolute
      (resolveLibraryPath (Demo.fresh "" biblatex) "../refs//./lib.bib") = true
  ∧ Path.isNormalized
      (resolveLibraryPath (Demo.fresh "" biblatex) "../refs//./lib.bib") = true.
Proof.
  split; [reflexivity|].
  apply (resolveLibraryPath_normalized (Demo.fresh "" biblatex)). reflexivity.
Defined.

Lemma resolveLibraryPath_idempotent_witness :
  resolveLibraryPath (Demo.fresh "" biblatex)
    (resolveLibraryPath (Demo.fresh "" biblatex) "refs/../lib.bib")
  = resolveLibraryPath (Demo.fresh "" biblatex) "refs/../lib.bib".
Proof.
  apply (resolveLibraryPath_idempotent (Demo.fresh "" biblatex)). reflexivity.
Defined.

Lemma watchedPath_unset_witness :
  watchedPath (Demo.fresh "" csl_json) = "/vault".
Proof.
  apply (watchedPath_unset (Demo.fresh "" csl_json)); reflexivity.
Defined.

(** Two records are loaded while the Library held so far is empty: the
    message counts no entry. *)
Lemma loadLibrary_success_witness :
  ∃ lib w',
    loadLibrary (Demo.loaded "refs.json" csl_json) = (Normal (Some lib), w')
    ∧ Library_size lib = 2
    ∧ console w'
      = [console_debug "Citation plugin: Reloading library";
         console_debug
           "Citation plugin: successfully loaded library with 0 entries."].
Proof.
  eexists _, _. split.
  - eapply (loadLibrary_success (Demo.loaded "refs.json" csl_json)
              (list_byte_of_string "ab a") "ab a"
              (Demo.records 0 (chars "ab a")) _ (new_Library ∅));
      reflexivity.
  - split; reflexivity.
Defined.

Lemma loadLibrary_needs_library_witness :
  is_Some (library (Demo.loaded "refs.json" csl_json))
  ∧ truthy (citationExportPath (settings (Demo.loaded "refs.json" csl_json)))
    = true.
Proof.
  edestruct (loadLibrary_needs_library (Demo.loaded "refs.json" csl_json))
    as (Hpath & Hlib & _).
  - reflexivity.
  - split; [exact Hlib|exact Hpath].
Defined.

(** The first load, a manual refresh and their reads, all of a well-formed
    file. *)
Lemma library_never_loads_witness :
  let ds := [Trigger Init;
             ReadSettled 0 (Normal (list_byte_of_string "ab a"));
             Trigger ManualRefresh;
             ReadSettled 1 (Normal (list_byte_of_string "ab a"))] in
  let s := dispatchAll ds (mkLoop (Demo.fresh "refs.json" csl_json) ∅ 0) in
  library (world s) = None
  ∧ (∃ msg, suggestions (world s) = Throw (TypeError msg))
  ∧ length (console (world s)) = 4.
Proof.
  intros ds s.
  destruct (library_never_loads
              (mkLoop (Demo.fresh "refs.json" csl_json) ∅ 0) ds)
    as [Hnone Hmodal]; [reflexivity|].
  split; [exact Hnone|]. split; [exact Hmodal|reflexivity].
Defined.

Lemma failed_reload_clears_library_witness :
  is_Some (library (world Demo.twoInFlight))
  ∧ library (world (dispatch (ReadSettled 0 (Throw (Error "EIO")))
                             Demo.twoInFlight)) = None
  ∧ library (world (dispatch (Trigger ManualRefresh)
                             (mkLoop (Demo.loaded "" csl_json) ∅ 0))) = None.
Proof.
  split; [by eexists|]. split.
  - apply (proj1 (failed_reload_clears_library Demo.twoInFlight) 0
             (mkPending WatcherChange "/vault/refs.json")
             (Throw (Error "EIO")) (Error "EIO")); reflexivity.
  - apply (proj2 (failed_reload_clears_library
                    (mkLoop (Demo.loaded "" csl_json) ∅ 0))).
    reflexivity.
Defined.

Lemma Notifier_rearms_witness :
  displayed (run [CallShow None; CallHide; CallShow (Some "")]
                 (initial "Unable")).2
  = [mkNotice 1 "Unable"]
  ∧ displayed (run [CallShow None; HostDisappear 0; CallShow (Some "Again")]
                   (initial "Unable")).2
    = [mkNotice 1 "Again"].
Proof.
  split.
  - apply (proj1 (Notifier_rearms "Unable" [CallShow None] (Some ""))).
  - apply (proj2 (Notifier_rearms "Unable" [CallShow None] (Some "Again"))
             (mkNotice 0 "Unable")).
    reflexivity.
Defined.

Lemma getTitleForCitekey_conservative_witness :
  ∃ title,
    getTitleForCitekey Demo.published "a" = Normal title
    ∧ String.length title = 21
    ∧ title ≠ "2020: What? <draft> a".
Proof.
  destruct (getTitleForCitekey_conservative Demo.published "a"
              (new_Library {[ "a" := [("id", "a"); ("key", "a")] ]})
              [("citekey", "a"); ("id", "a"); ("key", "a")]
              (fun variables =>
                 Normal ("2020: What? <draft> "
                         ++ default "" (Demo.field variables "citekey"))%string)
              "2020: What? <draft> a")
    as (title & Htitle & Hlength & Hclean); try reflexivity.
  exists title. split; [exact Htitle|]. split; [exact Hlength|].
  intros Heq. apply (proj1 Hclean Heq ":"%char).
  - simpl. set_unfold. tauto.
  - unfold DISALLOWED_FILENAME_CHARACTERS. set_unfold. tauto.
Defined.

Lemma getPathForCitekey_basename_witness :
  getPathForCitekey (DemoNotes.desk "notes/../lit/" []) "a"
  = Normal "lit/2020_ What_ _draft_ a.md"
  ∧ last (Path.split "lit/2020_ What_ _draft_ a.md")
    = Some "2020_ What_ _draft_ a.md".
Proof.
  destruct (getPathForCitekey_basename
              (DemoNotes.desk "notes/../lit/" []) "a" "2020_ What_ _draft_ a")
    as (path & Hpath & Hlast & _); [reflexivity|].
  assert (Heq : path = "lit/2020_ What_ _draft_ a.md")
    by (vm_compute in Hpath; by injection Hpath).
  rewrite <- Heq. split; [exact Hpath|exact Hlast].
Defined.

Lemma getPathForCitekey_in_folder_witness :
  getPathForCitekey (DemoNotes.desk "" []) "a"
  = Normal "2020_ What_ _draft_ a.md"
  ∧ getPathForCitekey (DemoNotes.desk "Reading/notes" []) "a"
    = Normal "Reading/notes/2020_ What_ _draft_ a.md".
Proof.
  split.
  - destruct (getPathForCitekey_in_folder (DemoNotes.desk "" []) "a"
                "2020_ What_ _draft_ a") as [Hempty _]; [reflexivity|].
    apply Hempty. reflexivity.
  - destruct (getPathForCitekey_in_folder
                (DemoNotes.desk "Reading/notes" []) "a"
                "2020_ What_ _draft_ a") as [_ Hfolder]; [reflexivity|].
    apply Hfolder. reflexivity.
Defined.

(** A note that differs from the wanted path in case only is found, and
    nothing is created. *)
Lemma getOrCreateLiteratureNoteFile_returns_witness :
  let files := [mkFile "notes" false;
                mkFile "Notes/2020_ WHAT_ _draft_ a.md" true] in
  ∃ ws',
    getOrCreateLiteratureNoteFile "a" (DemoNotes.desk "notes" files)
    = (Normal (mkFile "Notes/2020_ WHAT_ _draft_ a.md" true), ws')
    ∧ mkFile "Notes/2020_ WHAT_ _draft_ a.md" true ∈ vault ws'
    ∧ plugin ws' = Demo.published.
Proof.
  intros files. eexists. split; [reflexivity|].
  edestruct (getOrCreateLiteratureNoteFile_returns "a"
               (DemoNotes.desk "notes" files)) as (Hin & Hplugin & _);
    [reflexivity|].
  split; [exact Hin|exact Hplugin].
Defined.

(** The folder of the notes is missing: [vault.create] throws, the notice
    goes up and the exception is thrown on. *)
Lemma getOrCreateLiteratureNoteFile_fails_witness :
  ∃ ws',
    getOrCreateLiteratureNoteFile "a" (DemoNotes.desk "notes" [])
    = (Throw (Error "ENOENT: no such file or directory"), ws')
    ∧ vault ws' = []
    ∧ displayed (host (plugin ws'))
      = [mkNotice 0 "Unable to access literature note. Please check that the literature note folder exists, or update the Citations plugin settings."].
Proof.
  eexists. split; [reflexivity|].
  edestruct (getOrCreateLiteratureNoteFile_fails "a"
               (DemoNotes.desk "notes" []))
    as (Hvault & [[Hpath _]|(notePath & _ & _ & _ & Hdisplayed)]);
    [reflexivity|discriminate Hpath|].
  split; [exact Hvault|exact Hdisplayed].
Defined.

(** In the text [AB X 2020] the author string is the one character at
    position 3; the match from 3 to 6 is handed on as the match from 0 to
    3. *)
Lemma authorMatches_overrun_witness :
  getItemText DemoNotes.paper = "AB X 2020"
  ∧ ∃ shifted,
      authorMatches DemoNotes.paper [(3, 6)%Z] = Some shifted
      ∧ (0, 3)%Z ∈ shifted.
Proof.
  split; [reflexivity|].
  destruct (authorMatches_overrun DemoNotes.paper "X" [(3, 6)%Z] (3, 6)%Z)
    as (shifted & Hshifted & Hin & _);
    [reflexivity|reflexivity|apply list_elem_of_here|by vm_compute..|].
  exists shifted. split; [exact Hshifted|exact Hin].
Defined.

Lemma authorString_position_witness :
  getItemText DemoNotes.untitled = "undefined X 2021"
  ∧ String.substring 10 1 (getItemText DemoNotes.untitled) = "X"
  ∧ authorStringOffset DemoNotes.untitled = 1%Z.
Proof.
  split; [reflexivity|].
  destruct (authorString_position DemoNotes.untitled "X" eq_refl)
    as [Hat Hoffset].
  split; [exact Hat|exact Hoffset].
Defined.

End MoreInstances.
